(** * notjustmoney/errors: structured errors, their builder and chain resolution

    A shallow embedding of the Go package [errors] of this repository
    ([error.go], the builder, the resolver helpers and [stack_trace.go])
    together with the few pieces of the Go standard library and of
    [samber/lo], [google/uuid] it calls.

    Conventions.
    - A Go [*string] is an [option string]: only nil-ness and contents are
      ever observed by the package.
    - A Go [error] interface value is a term of [error]: [nil], one of the
      standard library's pointer types ([*errors.errorString],
      [*fmt.wrapError], [*fmt.wrapErrors], [*errors.joinError]) or a pointer
      to a node of this package.  Every pointer carries the address it was
      allocated at, so that [==] on interface values is address equality.
      Interface values holding a nil [*Error] and foreign error types with
      methods of their own are outside the model.
    - Maps and slices are references into the heap of the [World]: a setter
      that writes through them is seen by every holder of the reference.
    - A node is an immutable tree below its owner; the two methods that
      assign a field of their receiver ([Trace], [Time]) hand the updated
      receiver back to the caller.
    - Code that can dereference nil runs in the monad [M], whose results are
      [Ok] or [Panic]. *)

From Stdlib Require Import ZArith Ascii String List Lia DecimalString.
From stdpp Require Import base option gmap strings list.
From Equations Require Import Equations.

Set Warnings "-register-all".
Local Open Scope string_scope.
Local Open Scope list_scope.
Local Open Scope nat_scope.

(** ** Results, and the state-and-panic monad *)

Inductive result (A : Type) : Type :=
| Ok (a : A)
| Panic (why : string).
Arguments Ok {A} a.
Arguments Panic {A} why.

Definition nilDeref : string := "invalid memory address or nil pointer dereference".

(** ** Value types (the guidance and violation structs) *)

Record Retry := mkRetry { Delay : Z }.

Record Localization := mkLocalization { Locale : string; l_Message : string }.

Record Resource := mkResource {
  r_Type : string; r_Name : string; r_Owner : string; r_Description : string }.

Record Help := mkHelp { h_Description : string; URL : string }.

Record QuotaViolation := mkQuotaViolation {
  q_Subject : string; q_Description : string }.

Record PreconditionViolation := mkPreconditionViolation {
  p_Type : string; p_Subject : string; p_Description : string }.

Record FieldViolation := mkFieldViolation {
  Field : string; f_Description : string }.

#[global] Instance Retry_eq_dec : EqDecision Retry.
Proof. solve_decision. Defined.
#[global] Instance Localization_eq_dec : EqDecision Localization.
Proof. solve_decision. Defined.
#[global] Instance Resource_eq_dec : EqDecision Resource.
Proof. solve_decision. Defined.
#[global] Instance Help_eq_dec : EqDecision Help.
Proof. solve_decision. Defined.

(** [stack_trace.go]: one captured frame. *)
Record stackTraceFrame := mkFrame {
  pc : Z; file : string; function : string; line : Z }.

Definition stackTrace := list stackTraceFrame.

(** ** Slices and the heap *)

(** A slice header: the address of the backing array, a length and a
    capacity.  The nil and the empty slice have length and capacity 0 and
    their address is never followed. *)
Record slice := mkSlice { s_ptr : nat; s_len : nat; s_cap : nat }.

Definition nilSlice : slice := mkSlice 0 0 0.

(** What lives on the heap: maps and the backing arrays of slices. *)
Inductive object : Type :=
| MapObj (m : gmap string string)
| StringArr (a : list string)
| QuotaArr (a : list QuotaViolation)
| PreconditionArr (a : list PreconditionViolation)
| FieldArr (a : list FieldViolation)
| LocalizationArr (a : list Localization).

(** Element types of the slices the package uses. *)
Class Elem (T : Type) := {
  zeroval : T;
  to_obj : list T -> object;
  of_obj : object -> option (list T);
  of_to_obj : forall l, of_obj (to_obj l) = Some l }.

#[global, refine] Instance Elem_string : Elem string :=
  {| zeroval := EmptyString; to_obj := StringArr;
     of_obj o := match o with StringArr a => Some a | _ => None end |}.
Proof. reflexivity. Defined.

#[global, refine] Instance Elem_quota : Elem QuotaViolation :=
  {| zeroval := mkQuotaViolation EmptyString EmptyString; to_obj := QuotaArr;
     of_obj o := match o with QuotaArr a => Some a | _ => None end |}.
Proof. reflexivity. Defined.

#[global, refine] Instance Elem_precondition : Elem PreconditionViolation :=
  {| zeroval := mkPreconditionViolation EmptyString EmptyString EmptyString; to_obj := PreconditionArr;
     of_obj o := match o with PreconditionArr a => Some a | _ => None end |}.
Proof. reflexivity. Defined.

#[global, refine] Instance Elem_field : Elem FieldViolation :=
  {| zeroval := mkFieldViolation EmptyString EmptyString; to_obj := FieldArr;
     of_obj o := match o with FieldArr a => Some a | _ => None end |}.
Proof. reflexivity. Defined.

#[global, refine] Instance Elem_localization : Elem Localization :=
  {| zeroval := mkLocalization EmptyString EmptyString; to_obj := LocalizationArr;
     of_obj o := match o with LocalizationArr a => Some a | _ => None end |}.
Proof. reflexivity. Defined.

(** ** The node record and Go's [error] values *)

(** The struct [Error] of [error.go]; [ErrorBuilder] is the same struct
    under another name.  [E] is the type of the [err] field. *)
Record Fields (E : Type) : Type := mkFields {
  err : E;
  message : option string;
  reason : option string;
  domain : option string;
  metadata : option nat;
  quotaViolations : slice;
  preconditionViolations : slice;
  fieldViolations : slice;
  userID : option string;
  tenantID : option string;
  trace : option string;
  span : option string;
  requestID : option string;
  tags : slice;
  time : Z;
  help : Help;
  resource : Resource;
  localizations : slice;
  retry : Retry;
  stackTrace_ : stackTrace }.
Arguments mkFields {E}.
Arguments err {E}.
Arguments message {E}.
Arguments reason {E}.
Arguments domain {E}.
Arguments metadata {E}.
Arguments quotaViolations {E}.
Arguments preconditionViolations {E}.
Arguments fieldViolations {E}.
Arguments userID {E}.
Arguments tenantID {E}.
Arguments trace {E}.
Arguments span {E}.
Arguments requestID {E}.
Arguments tags {E}.
Arguments time {E}.
Arguments help {E}.
Arguments resource {E}.
Arguments localizations {E}.
Arguments retry {E}.
Arguments stackTrace_ {E}.

Inductive error : Type :=
| nil
| errorString (a : nat) (s : string)
| wrapError (a : nat) (msg : string) (e : error)
| wrapErrors (a : nat) (msg : string) (errs : list error)
| joinError (a : nat) (errs : list error)
| ErrorPtr (a : nat) (e : Fields error).

Definition Error : Type := Fields error.
Definition ErrorBuilder : Type := Fields error.

(** A [*Error]: nil, or an address and the node stored there. *)
Definition PtrError : Type := option (nat * Error).

Definition toError (p : PtrError) : error :=
  match p with
  | None => nil
  | Some (a, e) => ErrorPtr a e
  end.

Definition isNil (x : error) : bool :=
  match x with nil => true | _ => false end.

(** ** Field assignment on the struct ([e.f = v]) *)

Definition set_err {E} (v : E) (e : Fields E) : Fields E :=
  mkFields v (message e) (reason e) (domain e) (metadata e) (quotaViolations e) (preconditionViolations e) (fieldViolations e) (userID e) (tenantID e) (trace e) (span e) (requestID e) (tags e) (time e) (help e) (resource e) (localizations e) (retry e) (stackTrace_ e).
Definition set_message {E} (v : _) (e : Fields E) : Fields E :=
  mkFields (err e) v (reason e) (domain e) (metadata e) (quotaViolations e) (preconditionViolations e) (fieldViolations e) (userID e) (tenantID e) (trace e) (span e) (requestID e) (tags e) (time e) (help e) (resource e) (localizations e) (retry e) (stackTrace_ e).
Definition set_reason {E} (v : _) (e : Fields E) : Fields E :=
  mkFields (err e) (message e) v (domain e) (metadata e) (quotaViolations e) (preconditionViolations e) (fieldViolations e) (userID e) (tenantID e) (trace e) (span e) (requestID e) (tags e) (time e) (help e) (resource e) (localizations e) (retry e) (stackTrace_ e).
Definition set_domain {E} (v : _) (e : Fields E) : Fields E :=
  mkFields (err e) (message e) (reason e) v (metadata e) (quotaViolations e) (preconditionViolations e) (fieldViolations e) (userID e) (tenantID e) (trace e) (span e) (requestID e) (tags e) (time e) (help e) (resource e) (localizations e) (retry e) (stackTrace_ e).
Definition set_metadata {E} (v : _) (e : Fields E) : Fields E :=
  mkFields (err e) (message e) (reason e) (domain e) v (quotaViolations e) (preconditionViolations e) (fieldViolations e) (userID e) (tenantID e) (trace e) (span e) (requestID e) (tags e) (time e) (help e) (resource e) (localizations e) (retry e) (stackTrace_ e).
Definition set_quotaViolations {E} (v : _) (e : Fields E) : Fields E :=
  mkFields (err e) (message e) (reason e) (domain e) (metadata e) v (preconditionViolations e) (fieldViolations e) (userID e) (tenantID e) (trace e) (span e) (requestID e) (tags e) (time e) (help e) (resource e) (localizations e) (retry e) (stackTrace_ e).
Definition set_preconditionViolations {E} (v : _) (e : Fields E) : Fields E :=
  mkFields (err e) (message e) (reason e) (domain e) (metadata e) (quotaViolations e) v (fieldViolations e) (userID e) (tenantID e) (trace e) (span e) (requestID e) (tags e) (time e) (help e) (resource e) (localizations e) (retry e) (stackTrace_ e).
Definition set_fieldViolations {E} (v : _) (e : Fields E) : Fields E :=
  mkFields (err e) (message e) (reason e) (domain e) (metadata e) (quotaViolations e) (preconditionViolations e) v (userID e) (tenantID e) (trace e) (span e) (requestID e) (tags e) (time e) (help e) (resource e) (localizations e) (retry e) (stackTrace_ e).
Definition set_userID {E} (v : _) (e : Fields E) : Fields E :=
  mkFields (err e) (message e) (reason e) (domain e) (metadata e) (quotaViolations e) (preconditionViolations e) (fieldViolations e) v (tenantID e) (trace e) (span e) (requestID e) (tags e) (time e) (help e) (resource e) (localizations e) (retry e) (stackTrace_ e).
Definition set_tenantID {E} (v : _) (e : Fields E) : Fields E :=
  mkFields (err e) (message e) (reason e) (domain e) (metadata e) (quotaViolations e) (preconditionViolations e) (fieldViolations e) (userID e) v (trace e) (span e) (requestID e) (tags e) (time e) (help e) (resource e) (localizations e) (retry e) (stackTrace_ e).
Definition set_trace {E} (v : _) (e : Fields E) : Fields E :=
  mkFields (err e) (message e) (reason e) (domain e) (metadata e) (quotaViolations e) (preconditionViolations e) (fieldViolations e) (userID e) (tenantID e) v (span e) (requestID e) (tags e) (time e) (help e) (resource e) (localizations e) (retry e) (stackTrace_ e).
Definition set_span {E} (v : _) (e : Fields E) : Fields E :=
  mkFields (err e) (message e) (reason e) (domain e) (metadata e) (quotaViolations e) (preconditionViolations e) (fieldViolations e) (userID e) (tenantID e) (trace e) v (requestID e) (tags e) (time e) (help e) (resource e) (localizations e) (retry e) (stackTrace_ e).
Definition set_requestID {E} (v : _) (e : Fields E) : Fields E :=
  mkFields (err e) (message e) (reason e) (domain e) (metadata e) (quotaViolations e) (preconditionViolations e) (fieldViolations e) (userID e) (tenantID e) (trace e) (span e) v (tags e) (time e) (help e) (resource e) (localizations e) (retry e) (stackTrace_ e).
Definition set_tags {E} (v : _) (e : Fields E) : Fields E :=
  mkFields (err e) (message e) (reason e) (domain e) (metadata e) (quotaViolations e) (preconditionViolations e) (fieldViolations e) (userID e) (tenantID e) (trace e) (span e) (requestID e) v (time e) (help e) (resource e) (localizations e) (retry e) (stackTrace_ e).
Definition set_time {E} (v : _) (e : Fields E) : Fields E :=
  mkFields (err e) (message e) (reason e) (domain e) (metadata e) (quotaViolations e) (preconditionViolations e) (fieldViolations e) (userID e) (tenantID e) (trace e) (span e) (requestID e) (tags e) v (help e) (resource e) (localizations e) (retry e) (stackTrace_ e).
Definition set_help {E} (v : _) (e : Fields E) : Fields E :=
  mkFields (err e) (message e) (reason e) (domain e) (metadata e) (quotaViolations e) (preconditionViolations e) (fieldViolations e) (userID e) (tenantID e) (trace e) (span e) (requestID e) (tags e) (time e) v (resource e) (localizations e) (retry e) (stackTrace_ e).
Definition set_resource {E} (v : _) (e : Fields E) : Fields E :=
  mkFields (err e) (message e) (reason e) (domain e) (metadata e) (quotaViolations e) (preconditionViolations e) (fieldViolations e) (userID e) (tenantID e) (trace e) (span e) (requestID e) (tags e) (time e) (help e) v (localizations e) (retry e) (stackTrace_ e).
Definition set_localizations {E} (v : _) (e : Fields E) : Fields E :=
  mkFields (err e) (message e) (reason e) (domain e) (metadata e) (quotaViolations e) (preconditionViolations e) (fieldViolations e) (userID e) (tenantID e) (trace e) (span e) (requestID e) (tags e) (time e) (help e) (resource e) v (retry e) (stackTrace_ e).
Definition set_retry {E} (v : _) (e : Fields E) : Fields E :=
  mkFields (err e) (message e) (reason e) (domain e) (metadata e) (quotaViolations e) (preconditionViolations e) (fieldViolations e) (userID e) (tenantID e) (trace e) (span e) (requestID e) (tags e) (time e) (help e) (resource e) (localizations e) v (stackTrace_ e).
Definition set_stackTrace {E} (v : _) (e : Fields E) : Fields E :=
  mkFields (err e) (message e) (reason e) (domain e) (metadata e) (quotaViolations e) (preconditionViolations e) (fieldViolations e) (userID e) (tenantID e) (trace e) (span e) (requestID e) (tags e) (time e) (help e) (resource e) (localizations e) (retry e) v.

(** ** The world: heap, allocator and the runtime's oracles *)

(** What [runtime.Caller] and [runtime.FuncForPC] tell about one frame of
    the running goroutine: [c_file] is the path after [removeGoPath],
    [c_func] the name after [shortenFuncName], absent when the runtime has
    no function for the program counter. *)
Record callerFrame := mkCaller {
  c_pc : Z; c_file : string; c_line : Z; c_func : option string }.

Record World := mkWorld {
  heap : gmap nat object;
  next : nat;                  (* next free address *)
  uuids : nat;                 (* identifiers handed out so far *)
  now : Z;                     (* the wall clock, in nanoseconds *)
  growslice : nat -> nat -> nat; (* the runtime's capacity policy *)
  durationString : Z -> string;  (* time.Duration.String *)
  callers : list callerFrame;  (* runtime.Caller(0), runtime.Caller(1), ... *)
  GOROOT : string;
  packageName : string }.

Definition M (A : Type) : Type := World -> result (A * World).

#[global] Instance M_ret : MRet M := fun A a w => Ok (a, w).
#[global] Instance M_bind : MBind M := fun A B f c w =>
  match c w with
  | Ok (a, w') => f a w'
  | Panic why => Panic why
  end.

Definition panic {A} (why : string) : M A := fun _ => Panic why.
Definition getWorld : M World := fun w => Ok (w, w).

Definition setHeap (h : gmap nat object) (w : World) : World :=
  mkWorld h (next w) (uuids w) (now w) (growslice w) (durationString w) (callers w) (GOROOT w) (packageName w).

(** [new]/[make]: a fresh address holding [o]. *)
Definition alloc (o : object) : M nat := fun w =>
  Ok (next w, mkWorld (<[next w := o]> (heap w)) (S (next w)) (uuids w) (now w)
                      (growslice w) (durationString w) (callers w) (GOROOT w) (packageName w)).

(** The address of a freshly allocated object without heap contents (an
    error value, whose fields the model keeps in the term). *)
Definition newAddr : M nat := fun w =>
  Ok (next w, mkWorld (heap w) (S (next w)) (uuids w) (now w)
                      (growslice w) (durationString w) (callers w) (GOROOT w) (packageName w)).

Definition store (a : nat) (o : object) : M unit := fun w =>
  Ok (tt, setHeap (<[a := o]> (heap w)) w).

(** ** Strings *)

Definition nl : string := String (Ascii.ascii_of_nat 10) EmptyString.

(** [strconv.Itoa] / the ["%v"] rendering of an [int]. *)
Definition itoa (z : Z) : string := NilZero.string_of_int (Z.to_int z).

(** [strings.Join]. *)
Fixpoint strings_Join (elems : list string) (sep : string) : string :=
  match elems with
  | [] => EmptyString
  | [x] => x
  | x :: rest => x +:+ sep +:+ strings_Join rest sep
  end.

(** [strings.Contains]. *)
Fixpoint strings_Contains (s substr : string) : bool :=
  String.prefix substr s ||
  match s with
  | EmptyString => false
  | String _ s' => strings_Contains s' substr
  end.

(** ** Maps *)

(** The contents of a [map[string]string] value; a nil map reads as empty. *)
Definition mapRead (h : gmap nat object) (m : option nat) : gmap string string :=
  match m with
  | None => ∅
  | Some a => match h !! a with Some (MapObj g) => g | _ => ∅ end
  end.

(** [m[key] = value]. *)
Definition mapAssign (m : option nat) (key value : string) : M unit :=
  match m with
  | None => panic "assignment to entry in nil map"
  | Some a => w ← getWorld; store a (MapObj (<[key := value]> (mapRead (heap w) m)))
  end.

(** [map[string]string{}]. *)
Definition makeMap : M (option nat) := a ← alloc (MapObj ∅); mret (Some a).

(** [lo.Assign]: a new map holding the entries of [maps], later ones
    winning. *)
Definition lo_Assign (maps : list (option nat)) : M (option nat) :=
  w ← getWorld;
  a ← alloc (MapObj (foldl (fun out m => mapRead (heap w) m ∪ out) ∅ maps));
  mret (Some a).

(** ** Slices *)

Definition arrayAt `{Elem T} (h : gmap nat object) (a : nat) : option (list T) :=
  h !! a ≫= of_obj.

(** The elements [s[0], ..., s[len(s)-1]]. *)
Definition sliceRead `{Elem T} (h : gmap nat object) (s : slice) : list T :=
  match arrayAt h (s_ptr s) with
  | Some a => take (s_len s) a
  | None => []
  end.

(** [append(s, x)]: in place when the capacity allows, else into a new
    array of the capacity the runtime picks (never less than needed). *)
Definition append `{Elem T} (s : slice) (x : T) : M slice := fun w =>
  if s_len s <? s_cap s then
    match arrayAt (heap w) (s_ptr s) with
    | Some a =>
        Ok (mkSlice (s_ptr s) (S (s_len s)) (s_cap s),
            setHeap (<[s_ptr s := to_obj (<[s_len s := x]> a)]> (heap w)) w)
    | None => Panic "dangling slice"
    end
  else
    let newcap := S (s_len s) `max` growslice w (s_cap s) (S (s_len s)) in
    let a := sliceRead (heap w) s ++ x :: replicate (newcap - S (s_len s)) zeroval in
    (p ← alloc (to_obj a); mret (mkSlice p (S (s_len s)) newcap)) w.

(** [lo.Slice(collection, 0, end)], the only way the package calls it:
    a sub-slice of the same backing array, or [Slice{}] when [0 >= end]. *)
Definition lo_Slice (collection : slice) (end_ : nat) : slice :=
  if end_ =? 0 then nilSlice
  else mkSlice (s_ptr collection) (end_ `min` s_len collection) (s_cap collection).

(** [lo.Uniq]: one pass with the set of elements seen so far. *)
Definition lo_Uniq `{Countable T} (collection : list T) : list T :=
  (foldl (fun (st : gset T * list T) x =>
            if decide (x ∈ st.1) then st else ({[x]} ∪ st.1, st.2 ++ [x]))
         (∅, []) collection).2.

(** [lo.Coalesce] on strings: the first non-empty one. *)
Fixpoint lo_Coalesce (v : list string) : string * bool :=
  match v with
  | [] => (EmptyString, false)
  | x :: rest => if decide (x = EmptyString) then lo_Coalesce rest else (x, true)
  end.

(** ** [uuid] and [time] *)

Definition uuidText (n : nat) : string := "uuid-" +:+ itoa (Z.of_nat n).

Definition uuid_NewString : M string := fun w =>
  Ok (uuidText (uuids w),
      mkWorld (heap w) (next w) (S (uuids w)) (now w) (growslice w) (durationString w)
              (callers w) (GOROOT w) (packageName w)).

Definition time_Now : M Z := fun w => Ok (now w, w).

(** Time passing between two calls. *)
Definition elapse (d : Z) (w : World) : World :=
  mkWorld (heap w) (next w) (uuids w) (now w + d) (growslice w) (durationString w)
          (callers w) (GOROOT w) (packageName w).

Definition IsZero (t : Z) : bool := (t =? 0)%Z.

(** ** The standard library's [errors] and [fmt.Errorf] *)

(** [x == y] on interface values: both nil, or pointers of the same
    dynamic type to the same address. *)
Definition error_eqb (x y : error) : bool :=
  match x, y with
  | nil, nil => true
  | errorString a _, errorString b _ => a =? b
  | wrapError a _ _, wrapError b _ _ => a =? b
  | wrapErrors a _ _, wrapErrors b _ _ => a =? b
  | joinError a _, joinError b _ => a =? b
  | ErrorPtr a _, ErrorPtr b _ => a =? b
  | _, _ => false
  end.

(** [errors.New]. *)
Definition errors_New (text : string) : M error :=
  a ← newAddr; mret (errorString a text).

(** [errors.Join]: nil values are dropped; nil when nothing is left. *)
Definition errors_Join (errs : list error) : M error :=
  let kept := filter (fun e => isNil e = false) errs in
  if length kept =? 0 then mret nil
  else a ← newAddr; mret (joinError a kept).

(** [x.Error()], by dynamic dispatch.  The last case is the method
    [Error] on [*Error] of [error.go]; the call sites of the package guard
    against nil. *)
Fixpoint error_Error (x : error) : string :=
  match x with
  | nil => EmptyString
  | errorString _ s => s
  | wrapError _ msg _ => msg
  | wrapErrors _ msg _ => msg
  | joinError _ errs => strings_Join (map error_Error errs) nl
  | ErrorPtr _ e =>
      let sb := EmptyString in
      let sb := match message e with
                | Some m => (sb +:+ m) +:+ (if negb (isNil (err e)) then ": " else EmptyString)
                | None => sb
                end in
      let sb := if negb (isNil (err e)) then sb +:+ error_Error (err e) else sb in
      sb
  end.

(** The loop [is] of [errors.Is].  Every dynamic type of the model is a
    pointer, hence comparable.  The [ErrorPtr] case first calls the method
    [Is] on [*Error] of [error.go], then goes on with [Unwrap()]. *)
Fixpoint errors_is (x target : error) {struct x} : bool :=
  error_eqb x target ||
  match x with
  | nil | errorString _ _ => false
  | wrapError _ _ e => if isNil e then false else errors_is e target
  | wrapErrors _ _ errs | joinError _ errs =>
      existsb (fun e => errors_is e target) errs
  | ErrorPtr _ e =>
      ((if isNil (err e) || isNil target then error_eqb (err e) target
        else errors_is (err e) target)
       || error_eqb x target)
      || (if isNil (err e) then false else errors_is (err e) target)
  end.

(** [errors.Is]. *)
Definition errors_Is (x target : error) : bool :=
  if isNil x || isNil target then error_eqb x target else errors_is x target.

(** [errors.As(x, &child)] for a target of type [*Error]: the first node of
    this package met on the way down the [Unwrap] tree. *)
Fixpoint errors_As (x : error) : PtrError :=
  match x with
  | nil | errorString _ _ => None
  | wrapError _ _ e => errors_As e
  | wrapErrors _ _ errs | joinError _ errs =>
      (fix firstAs (l : list error) : PtrError :=
         match l with
         | [] => None
         | e :: rest =>
             match errors_As e with
             | Some c => Some c
             | None => firstAs rest
             end
         end) errs
  | ErrorPtr a e => Some (a, e)
  end.

(** An operand of a formatting call. *)
Inductive any : Type :=
| AnyString (s : string)
| AnyInt (n : Z)
| AnyError (e : error).

(** What one verb prints for one operand, and whether the operand is
    recorded as wrapped.  Only [%v], [%s], [%d] and [%w] are rendered; any
    other pairing prints Go's bad-verb marker without the operand. *)
Definition printArg (verb : Ascii.ascii) (arg : any) : string * bool :=
  let bad := "%!" +:+ String verb "(BADVERB)" in
  match arg with
  | AnyString s =>
      if bool_decide (verb = "v"%char) || bool_decide (verb = "s"%char) then (s, false)
      else (bad, false)
  | AnyInt n =>
      if bool_decide (verb = "v"%char) || bool_decide (verb = "d"%char) then (itoa n, false)
      else (bad, false)
  | AnyError nil =>
      if bool_decide (verb = "v"%char) then ("<nil>", false)
      else ("%!" +:+ String verb "(<nil>)", false)
  | AnyError e =>
      if bool_decide (verb = "w"%char) then (error_Error e, true)
      else if bool_decide (verb = "v"%char) || bool_decide (verb = "s"%char) then (error_Error e, false)
      else (bad, false)
  end.

(** [doPrintf] of the printer with [wrapErrs] set, for formats without flags, widths
    or explicit argument indexes: the text, and the numbers of the
    operands met under [%w]. *)
Fixpoint doPrintf (format : string) (a : list any) (argNum : nat) : string * list nat :=
  match format with
  | EmptyString => (if argNum <? length a then "%!(EXTRA)" else EmptyString, [])
  | String c rest =>
      if decide (c = "%"%char) then
        match rest with
        | EmptyString => ("%!(NOVERB)", [])
        | String verb rest' =>
            if decide (verb = "%"%char) then
              let r := doPrintf rest' a argNum in (String "%" r.1, r.2)
            else
              match a !! argNum with
              | None =>
                  let r := doPrintf rest' a argNum in
                  (("%!" +:+ String verb "(MISSING)") +:+ r.1, r.2)
              | Some arg =>
                  let p := printArg verb arg in
                  let r := doPrintf rest' a (S argNum) in
                  (p.1 +:+ r.1, if p.2 then argNum :: r.2 else r.2)
              end
        end
      else
        let r := doPrintf rest a argNum in (String c r.1, r.2)
  end.

(** The operands of [a] at the recorded numbers that are errors. *)
Definition wrappedOperands (a : list any) (nums : list nat) : list error :=
  omap (fun i => match a !! i with Some (AnyError e) => Some e | _ => None end) nums.

(** [fmt.Errorf]: an [errorString] when nothing is wrapped, a [wrapError]
    for one [%w], a [wrapErrors] for several. *)
Definition fmt_Errorf (format : string) (a : list any) : M error :=
  let p := doPrintf format a 0 in
  let s := p.1 in
  match p.2 with
  | [] => errors_New s
  | [i] =>
      p ← newAddr;
      mret (wrapError p s (match a !! i with Some (AnyError e) => e | _ => nil end))
  | nums => p ← newAddr; mret (wrapErrors p s (wrappedOperands a nums))
  end.

(** ** [stack_trace.go] *)

Definition StackTraceMaxDepth : nat := 50.

(** The loop of [newStacktrace] over the frames [runtime.Caller] still has
    to offer; it stops at the depth bound, when the runtime runs out of
    frames, or at a frame without a function. *)
Fixpoint captureFrames (goroot pkg : string) (cs : list callerFrame) (frames : stackTrace) : stackTrace :=
  if StackTraceMaxDepth <=? length frames then frames
  else
    match cs with
    | [] => frames
    | c :: rest =>
        match c_func c with
        | None => frames
        | Some fn =>
            let packageNameExamples := pkg +:+ "/examples/" in
            let isGoPkg := (0 <? String.length goroot) && strings_Contains (c_file c) goroot in
            let isThisPkg := strings_Contains (c_file c) pkg in
            let isExamplePkg := strings_Contains (c_file c) packageNameExamples in
            let isTestPkg := strings_Contains (c_file c) "_test.go" in
            if negb isGoPkg && (negb isThisPkg || isExamplePkg || isTestPkg)
            then captureFrames goroot pkg rest (frames ++ [mkFrame (c_pc c) (c_file c) fn (c_line c)])
            else captureFrames goroot pkg rest frames
        end
    end.

Definition newStacktrace : M stackTrace := fun w =>
  Ok (captureFrames (GOROOT w) (packageName w) (callers w) [], w).

(** [stackTraceFrame.String]. *)
Definition frame_String (f : stackTraceFrame) : string :=
  let s := (file f +:+ ":") +:+ itoa (line f) in
  if negb (bool_decide (function f = EmptyString))
  then (((file f +:+ ":") +:+ itoa (line f)) +:+ " ") +:+ (function f +:+ "()")
  else s.

(** [stackTraceFrame.Equals]. *)
Definition frame_Equals (f other : stackTraceFrame) : bool :=
  bool_decide (file f = file other) && bool_decide (function f = function other)
  && (line f =? line other)%Z.

Definition strings_HasSuffix (s suffix : string) : bool :=
  (String.length suffix <=? String.length s) &&
  bool_decide (substring (String.length s - String.length suffix) (String.length suffix) s = suffix).

(** The loop of [stackTrace.StringUntilFrame], [s] being the text so far. *)
Fixpoint StringUntilFrame_loop (st : stackTrace) (deepestFrame : stackTraceFrame) (s : string) : string :=
  match st with
  | [] => s
  | frame :: rest =>
      if bool_decide (file frame = EmptyString) then StringUntilFrame_loop rest deepestFrame s
      else
        let frameStr := frame_String frame in
        if bool_decide (frameStr = EmptyString) then s
        else if frame_Equals frame deepestFrame then s
        else
          let s := if negb (bool_decide (s = EmptyString)) && negb (strings_HasSuffix s nl)
                   then s +:+ nl else s in
          StringUntilFrame_loop rest deepestFrame (s +:+ ("  --- at " +:+ frameStr))
  end.

Definition StringUntilFrame (st : stackTrace) (deepestFrame : stackTraceFrame) : string :=
  StringUntilFrame_loop st deepestFrame EmptyString.

Definition zeroFrame : stackTraceFrame := mkFrame 0 EmptyString EmptyString 0.

(** ** The resolver helpers: [recursive], [recursiveAttr], [deepCopyPtr] *)

(** How far the [Unwrap] tree below a value reaches; the measure under
    which the resolver's recursion ends. *)
Fixpoint esize (x : error) : nat :=
  match x with
  | nil => 0
  | errorString _ _ => 1
  | wrapError _ _ e => S (esize e)
  | wrapErrors _ _ errs | joinError _ errs => S (list_sum (map esize errs))
  | ErrorPtr _ e => S (esize (err e))
  end.

Definition psize (p : PtrError) : nat :=
  match p with
  | None => 0
  | Some (_, e) => S (esize (err e))
  end.

Lemma As_size_aux n : forall x c, esize x <= n -> errors_As x = Some c -> psize (Some c) <= esize x.
Proof.
  induction n as [|n IH]; intros x c Hn; destruct x; simpl in *; try discriminate; try lia.
  - intros H. apply IH in H; simpl in *; lia.
  - revert Hn. induction errs as [|e errs IHes]; simpl; try discriminate. intros Hn.
    destruct (errors_As e) as [c'|] eqn:E.
    + intros [= ->]. apply IH in E; simpl in *; lia.
    + intros H. apply IHes in H; lia.
  - revert Hn. induction errs as [|e errs IHes]; simpl; try discriminate. intros Hn.
    destruct (errors_As e) as [c'|] eqn:E.
    + intros [= ->]. apply IH in E; simpl in *; lia.
    + intros H. apply IHes in H; lia.
  - intros [= <-]. lia.
Qed.

Lemma As_size x c : errors_As x = Some c -> psize (Some c) <= esize x.
Proof. apply (As_size_aux (esize x)); lia. Qed.

Definition inspect {A} (a : A) : {b | a = b} := exist _ a eq_refl.

(** [recursive(err, tap)]: [tap] is a closure over local variables of its
    caller; [St] is their type and [s] their value so far. *)
Equations? recursive {St : Type} (p : PtrError) (tap : Error -> St -> St) (s : St) : St
  by wf (psize p) lt :=
  recursive None tap s := s;
  recursive (Some (a, e)) tap s with inspect (isNil (err e)) => {
    | exist _ true _ := tap e s;
    | exist _ false _ with inspect (errors_As (err e)) => {
        | exist _ (Some child) H := recursive (Some child) tap (tap e s);
        | exist _ None _ := tap e s } }.
Proof. apply As_size in H. simpl in H. lia. Qed.

(** [recursiveAttr(err, attr)]; [zero] is the zero value of [T]. *)
Equations? recursiveAttr {T : Type} (zero : T) (p : PtrError) (attr : Error -> T) : T
  by wf (psize p) lt :=
  recursiveAttr zero None attr := zero;
  recursiveAttr zero (Some (a, e)) attr with inspect (isNil (err e)) => {
    | exist _ true _ := attr e;
    | exist _ false _ with inspect (errors_As (err e)) => {
        | exist _ (Some child) H := recursiveAttr zero (Some child) attr;
        | exist _ None _ := attr e } }.
Proof. apply As_size in H. simpl in H. lia. Qed.

(** [deepCopyPtr]: a new pointer to a copy of the pointee. *)
Definition deepCopyPtr {T} (p : option T) : option T :=
  match p with
  | None => None
  | Some v => Some v
  end.

Definition coalesceOrEmpty (v : list string) : string := (lo_Coalesce v).1.

(** ** The builder *)

Definition zeroHelp : Help := mkHelp EmptyString EmptyString.
Definition zeroResource : Resource := mkResource EmptyString EmptyString EmptyString EmptyString.
Definition zeroRetry : Retry := mkRetry 0.

Definition newBuilder : M ErrorBuilder :=
  t ← time_Now;
  mret (mkFields nil None None None None nilSlice nilSlice nilSlice
                 None None None None None nilSlice t
                 zeroHelp zeroResource nilSlice zeroRetry []).

Module ErrorBuilder.

(** Every field of the literal in [deepCopy]; [requestID] and [time] are
    not listed there and so take their zero values. *)
Definition deepCopy (e : ErrorBuilder) : M ErrorBuilder :=
  m0 ← makeMap;
  md ← lo_Assign [m0; metadata e];
  mret (mkFields (err e)
          (deepCopyPtr (message e))
          (deepCopyPtr (reason e))
          (deepCopyPtr (domain e))
          md
          (lo_Slice (quotaViolations e) (s_len (quotaViolations e)))
          (lo_Slice (preconditionViolations e) (s_len (preconditionViolations e)))
          (lo_Slice (fieldViolations e) (s_len (fieldViolations e)))
          (deepCopyPtr (userID e))
          (deepCopyPtr (tenantID e))
          (deepCopyPtr (trace e))
          (deepCopyPtr (span e))
          None
          (lo_Slice (tags e) (s_len (tags e)))
          0%Z
          (help e)
          (resource e)
          (lo_Slice (localizations e) (s_len (localizations e)))
          (retry e)
          []).

(** [wrap] returns a [*ErrorBuilder]: nil, or the address of [e2]. *)
Definition wrap (e : ErrorBuilder) (err_ : error) : M (option (nat * ErrorBuilder)) :=
  if isNil err_ then mret None
  else
    e2 ← deepCopy e;
    let e2 := set_err err_ e2 in
    e2 ← match span e2 with
         | None => u ← uuid_NewString; mret (set_span (Some u) e2)
         | Some _ => mret e2
         end;
    st ← newStacktrace;
    let e2 := set_stackTrace st e2 in
    a ← newAddr;
    mret (Some (a, e2)).

Definition Wrap (e : ErrorBuilder) (err_ : error) : M error :=
  e2 ← wrap e err_;
  match e2 with
  | None => mret nil
  | Some (a, e2) => mret (ErrorPtr a e2)
  end.

Definition Wrapf (e : ErrorBuilder) (err_ : error) (format : string) (args : list any) : M error :=
  e2 ← wrap e err_;
  match e2 with
  | None => mret nil
  | Some (a, e2) =>
      f ← fmt_Errorf format args;
      mret (ErrorPtr a (set_message (Some (error_Error f)) e2))
  end.

Definition Error (e : ErrorBuilder) (message_ : string) : M error :=
  e2 ← deepCopy e;
  let e2 := set_message (Some message_) e2 in
  st ← newStacktrace;
  let e2 := set_stackTrace st e2 in
  a ← newAddr;
  mret (ErrorPtr a e2).

Definition Errorf (e : ErrorBuilder) (format : string) (args : list any) : M error :=
  e2 ← deepCopy e;
  f ← fmt_Errorf format args;
  let e2 := set_err f e2 in
  st ← newStacktrace;
  let e2 := set_stackTrace st e2 in
  a ← newAddr;
  mret (ErrorPtr a e2).

Definition Join (e : ErrorBuilder) (errs : list error) : M error :=
  j ← errors_Join errs;
  Wrap e j.

(** The setters.  Their receiver is a copy of the struct; the map and the
    slices in it are the caller's. *)

Definition Reason (e : ErrorBuilder) (reason_ : string) : ErrorBuilder :=
  set_reason (Some reason_) e.

Definition Domain (e : ErrorBuilder) (domain_ : string) : ErrorBuilder :=
  set_domain (Some domain_) e.

Definition WithMetadata (e : ErrorBuilder) (key value : string) : M ErrorBuilder :=
  e ← match metadata e with
      | None => m ← makeMap; mret (set_metadata m e)
      | Some _ => mret e
      end;
  mapAssign (metadata e) key value;;
  mret e.

Definition WithQuotaViolation (e : ErrorBuilder) (subject description : string) : M ErrorBuilder :=
  s ← append (quotaViolations e) (mkQuotaViolation subject description);
  mret (set_quotaViolations s e).

Definition WithPreconditionViolation (e : ErrorBuilder) (subject description : string) : M ErrorBuilder :=
  s ← append (preconditionViolations e) (mkPreconditionViolation EmptyString subject description);
  mret (set_preconditionViolations s e).

Definition WithFieldViolation (e : ErrorBuilder) (field description : string) : M ErrorBuilder :=
  s ← append (fieldViolations e) (mkFieldViolation field description);
  mret (set_fieldViolations s e).

Definition UserID (e : ErrorBuilder) (userID_ : string) : ErrorBuilder :=
  set_userID (Some userID_) e.

Definition TenantID (e : ErrorBuilder) (tenantID_ : string) : ErrorBuilder :=
  set_tenantID (Some tenantID_) e.

Definition Trace (e : ErrorBuilder) (trace_ : string) : ErrorBuilder :=
  set_trace (Some trace_) e.

Definition Span (e : ErrorBuilder) (span_ : string) : ErrorBuilder :=
  set_span (Some span_) e.

Definition RequestID (e : ErrorBuilder) (requestID_ : string) : ErrorBuilder :=
  set_requestID (Some requestID_) e.

Definition WithTag (e : ErrorBuilder) (tag : string) : M ErrorBuilder :=
  s ← append (tags e) tag;
  mret (set_tags s e).

Definition Help (e : ErrorBuilder) (help_ : Help) : ErrorBuilder :=
  set_help help_ e.

Definition Resource (e : ErrorBuilder) (resource_ : Resource) : ErrorBuilder :=
  set_resource resource_ e.

Definition WithLocalization (e : ErrorBuilder) (localization : Localization) : M ErrorBuilder :=
  s ← append (localizations e) localization;
  mret (set_localizations s e).

Definition Retry (e : ErrorBuilder) (retry_ : Retry) : ErrorBuilder :=
  set_retry retry_ e.

End ErrorBuilder.

(** The package-level constructors: each starts from [newBuilder()]. *)

Definition New (message_ : string) : M error :=
  b ← newBuilder; ErrorBuilder.Error b message_.

Definition Wrap (err_ : error) : M error :=
  b ← newBuilder; ErrorBuilder.Wrap b err_.

Definition Wrapf (err_ : error) (format : string) (args : list any) : M error :=
  b ← newBuilder; ErrorBuilder.Wrapf b err_ format args.

Definition Errorf (format : string) (args : list any) : M error :=
  b ← newBuilder; ErrorBuilder.Errorf b format args.

Definition Join (errs : list error) : M error :=
  b ← newBuilder; ErrorBuilder.Join b errs.

Definition Reason (reason_ : string) : M ErrorBuilder :=
  b ← newBuilder; mret (ErrorBuilder.Reason b reason_).

Definition Domain (domain_ : string) : M ErrorBuilder :=
  b ← newBuilder; mret (ErrorBuilder.Domain b domain_).

Definition WithMetadata (key value : string) : M ErrorBuilder :=
  b ← newBuilder; ErrorBuilder.WithMetadata b key value.

Definition WithQuotaViolation (subject description : string) : M ErrorBuilder :=
  b ← newBuilder; ErrorBuilder.WithQuotaViolation b subject description.

Definition WithPreconditionViolation (subject description : string) : M ErrorBuilder :=
  b ← newBuilder; ErrorBuilder.WithPreconditionViolation b subject description.

Definition WithFieldViolation (field description : string) : M ErrorBuilder :=
  b ← newBuilder; ErrorBuilder.WithFieldViolation b field description.

Definition WithLocalization (localization : Localization) : M ErrorBuilder :=
  b ← newBuilder; ErrorBuilder.WithLocalization b localization.

Definition UserID (userID_ : string) : M ErrorBuilder :=
  b ← newBuilder; mret (ErrorBuilder.UserID b userID_).

Definition TenantID (tenantID_ : string) : M ErrorBuilder :=
  b ← newBuilder; mret (ErrorBuilder.TenantID b tenantID_).

Definition Trace (trace_ : string) : M ErrorBuilder :=
  b ← newBuilder; mret (ErrorBuilder.Trace b trace_).

Definition Span (span_ : string) : M ErrorBuilder :=
  b ← newBuilder; mret (ErrorBuilder.Span b span_).

Definition WithTag (tag : string) : M ErrorBuilder :=
  b ← newBuilder; ErrorBuilder.WithTag b tag.

(** ** [log/slog] values *)

(** A Go value handed to [slog.Any] or met as a loose argument of
    [slog.Group]. *)
Inductive goValue : Type :=
| QuotaViolationsValue (s : slice)
| PreconditionViolationsValue (s : slice)
| FieldViolationsValue (s : slice)
| StringsValue (l : list string)
| LocalizationValue (l : Localization).

Inductive slogValue : Type :=
| StringValue (s : string)
| TimeValue (t : Z)
| AnyValue (v : goValue)
| GroupValue_ (attrs : list (string * slogValue)).

Definition slogAttr : Type := string * slogValue.

Definition isEmptyGroup (v : slogValue) : bool :=
  match v with
  | GroupValue_ [] => true
  | _ => false
  end.

(** [slog.GroupValue]: empty groups among the attributes are dropped. *)
Definition slog_GroupValue (attrs : list slogAttr) : slogValue :=
  GroupValue_ (filter (fun a => isEmptyGroup a.2 = false) attrs).

(** [slog.Group] over attributes. *)
Definition slog_Group (key : string) (attrs : list slogAttr) : slogAttr :=
  (key, slog_GroupValue attrs).

(** [slog.Group] over loose values that are neither strings nor
    attributes: each becomes an attribute under the key for a missing
    key. *)
Definition slog_Group_values (key : string) (args : list goValue) : slogAttr :=
  slog_Group key (map (fun v => ("!BADKEY", AnyValue v)) args).

Definition liftR {A} (r : result A) : M A := fun w =>
  match r with
  | Ok a => Ok (a, w)
  | Panic why => Panic why
  end.

(** ** [error.go]: the methods of [*Error] *)

Module Error.

Definition Error (p : PtrError) : result string :=
  match p with
  | None => Panic nilDeref
  | Some (a, e) => Ok (error_Error (ErrorPtr a e))
  end.


Definition Is (p : PtrError) (err_ : error) : result bool :=
  match p with
  | None => Panic nilDeref
  | Some (a, e) =>
      if errors_Is (err e) err_ then Ok true
      else Ok (error_eqb (ErrorPtr a e) err_)
  end.

(** The closure of [StackTrace] keeps [blocks] and [topFrame]. *)
Definition StackTrace_tap (ee : Fields error) (st : list string * stackTraceFrame)
  : list string * stackTraceFrame :=
  match stackTrace_ ee with
  | [] => st
  | first :: _ =>
      let message_ :=
        match message ee with
        | Some m => m
        | None =>
            coalesceOrEmpty
              [ (if negb (isNil (err ee)) then error_Error (err ee) else EmptyString); "Error" ]
        end in
      let block := (message_ +:+ nl) +:+ StringUntilFrame (stackTrace_ ee) st.2 in
      (block :: st.1, first)
  end.

Definition StackTrace (p : PtrError) : string :=
  let blocks := (recursive p StackTrace_tap ([], zeroFrame)).1 in
  if length blocks =? 0 then EmptyString
  else "Error: " +:+ strings_Join blocks (nl +:+ "Thrown: ").

Definition Message (p : PtrError) : option string :=
  recursiveAttr None p message.

Definition Reason (p : PtrError) : option string :=
  recursiveAttr None p reason.

Definition Domain (p : PtrError) : option string :=
  recursiveAttr None p domain.

Definition Metadata (p : PtrError) : option nat :=
  recursiveAttr None p metadata.

Definition QuotaViolations (p : PtrError) : slice :=
  recursiveAttr nilSlice p quotaViolations.

Definition PreconditionViolations (p : PtrError) : slice :=
  recursiveAttr nilSlice p preconditionViolations.

Definition FieldViolations (p : PtrError) : slice :=
  recursiveAttr nilSlice p fieldViolations.

(** [Trace] assigns [e.trace]: the receiver comes back with the result. *)
Definition Trace (p : PtrError) : M (option string * PtrError) :=
  match recursiveAttr None p trace with
  | Some t => mret (Some t, p)
  | None =>
      traceID ← uuid_NewString;
      match p with
      | None => panic nilDeref
      | Some (a, e) => mret (Some traceID, Some (a, set_trace (Some traceID) e))
      end
  end.

Definition Span (p : PtrError) : result (option string) :=
  match p with
  | None => Panic nilDeref
  | Some (_, e) => Ok (span e)
  end.

Definition RequestID (p : PtrError) : result (option string) :=
  match p with
  | None => Panic nilDeref
  | Some (_, e) => Ok (requestID e)
  end.

Definition Tags (h : gmap nat object) (p : PtrError) : list string :=
  lo_Uniq (recursive p (fun e tags_ => tags_ ++ sliceRead h (tags e)) []).

(** [Time] assigns [e.time]: the receiver comes back with the result. *)
Definition Time (p : PtrError) : M (Z * PtrError) :=
  let t := recursiveAttr 0%Z p time in
  if IsZero t then
    now_ ← time_Now;
    match p with
    | None => panic nilDeref
    | Some (a, e) => mret (now_, Some (a, set_time now_ e))
    end
  else mret (t, p).

Definition Help (p : PtrError) : Help :=
  recursiveAttr zeroHelp p help.

Definition Resource (p : PtrError) : Resource :=
  recursiveAttr zeroResource p resource.

Definition Localizations (p : PtrError) : slice :=
  recursiveAttr nilSlice p localizations.

Definition Retry (p : PtrError) : Retry :=
  recursiveAttr zeroRetry p retry.

(** [LogValue]; the receiver comes back because [Trace] and [Time] may
    assign to it.  The iteration order of a Go map is unspecified; the
    model lists the entries in the order of [map_to_list]. *)
Definition LogValue (p : PtrError) : M (slogValue * PtrError) :=
  match p with
  | None => mret (slog_GroupValue [], p)
  | Some (_, e) =>
      let attrs : list slogAttr := [] in
      attrs ← match Message p with
              | Some _ =>
                  match message e with
                  | Some m => mret (attrs ++ [("message", StringValue m)])
                  | None => panic nilDeref
                  end
              | None => mret attrs
              end;
      let attrs := match Reason p with
                   | Some reason_ => attrs ++ [("reason", StringValue reason_)]
                   | None => attrs
                   end in
      let attrs := match Domain p with
                   | Some domain_ => attrs ++ [("domain", StringValue domain_)]
                   | None => attrs
                   end in
      w ← getWorld;
      let md := mapRead (heap w) (metadata e) in
      let attrs := if 0 <? size md
                   then attrs ++ [slog_Group "metadata"
                                    (map (fun kv => (kv.1, StringValue kv.2)) (map_to_list md))]
                   else attrs in
      let quotaViolations_ := QuotaViolations p in
      let attrs := if 0 <? s_len quotaViolations_
                   then attrs ++ [("quotaViolations", AnyValue (QuotaViolationsValue quotaViolations_))]
                   else attrs in
      let preconditionViolations_ := PreconditionViolations p in
      let attrs := if 0 <? s_len preconditionViolations_
                   then attrs ++ [("preconditionViolations",
                                   AnyValue (PreconditionViolationsValue preconditionViolations_))]
                   else attrs in
      let fieldViolations_ := FieldViolations p in
      let attrs := if 0 <? s_len fieldViolations_
                   then attrs ++ [("fieldViolations", AnyValue (FieldViolationsValue fieldViolations_))]
                   else attrs in
      let attrs := match userID e with
                   | Some userID_ => attrs ++ [("userId", StringValue userID_)]
                   | None => attrs
                   end in
      let attrs := match tenantID e with
                   | Some tenantID_ => attrs ++ [("tenantId", StringValue tenantID_)]
                   | None => attrs
                   end in
      '(trace_, p) ← Trace p;
      let attrs := match trace_ with
                   | Some t => attrs ++ [("trace", StringValue t)]
                   | None => attrs
                   end in
      span_ ← liftR (Span p);
      let attrs := match span_ with
                   | Some sp => attrs ++ [("span", StringValue sp)]
                   | None => attrs
                   end in
      requestID_ ← liftR (RequestID p);
      let attrs := match requestID_ with
                   | Some r => attrs ++ [("requestId", StringValue r)]
                   | None => attrs
                   end in
      w ← getWorld;
      let tags_ := Tags (heap w) p in
      let attrs := if 0 <? length tags_
                   then attrs ++ [("tags", AnyValue (StringsValue tags_))]
                   else attrs in
      '(time_, p) ← Time p;
      let attrs := if negb (IsZero time_)
                   then attrs ++ [("time", TimeValue time_)]
                   else attrs in
      let help_ := Help p in
      let attrs := if bool_decide (help_ ≠ zeroHelp)
                   then attrs ++ [slog_Group "help"
                                    [("description", StringValue (h_Description help_));
                                     ("url", StringValue (URL help_))]]
                   else attrs in
      let resource_ := Resource p in
      let attrs := if bool_decide (resource_ ≠ zeroResource)
                   then attrs ++ [slog_Group "resource"
                                    [("type", StringValue (r_Type resource_));
                                     ("name", StringValue (r_Name resource_));
                                     ("owner", StringValue (r_Owner resource_));
                                     ("description", StringValue (r_Description resource_))]]
                   else attrs in
      w ← getWorld;
      let localizations_ := Localizations p in
      let attrs := if 0 <? s_len localizations_
                   then attrs ++ [slog_Group_values "localizations"
                                    (map LocalizationValue (sliceRead (heap w) localizations_))]
                   else attrs in
      let retry_ := Retry p in
      let attrs := if bool_decide (retry_ ≠ zeroRetry)
                   then attrs ++ [slog_Group "retry"
                                    [("delay", StringValue (durationString w (Delay retry_)))]]
                   else attrs in
      let st := StackTrace p in
      let attrs := if negb (bool_decide (st = EmptyString))
                   then attrs ++ [("stackTrace", StringValue st)]
                   else attrs in
      mret (slog_GroupValue attrs, p)
  end.

End Error.

(** ** The chain of a node, and what the specification says of it *)

(** The nodes of this package linked by [err], outermost first: the next
    node is the one [errors.As] finds in the cause. *)
Equations? chain (p : PtrError) : list Error by wf (psize p) lt :=
  chain None := [];
  chain (Some (a, e)) with inspect (errors_As (err e)) => {
    | exist _ (Some child) H := e :: chain (Some child);
    | exist _ None _ := [e] }.
Proof. apply As_size in H. simpl in H. lia. Qed.


(** In the specification's words: duplicates removed, the first
    occurrence of every element kept in place. *)
Fixpoint dedupFirst (l : list string) : list string :=
  match l with
  | [] => []
  | x :: rest => x :: filter (fun y => y ≠ x) (dedupFirst rest)
  end.

(** The type assertion [x.( *Error )]. *)
Definition assertError (x : error) : PtrError :=
  match x with
  | ErrorPtr a e => Some (a, e)
  | _ => None
  end.

(** The value a computation ends with, if it does not panic. *)
Definition resultValue {A} (r : result (A * World)) : option A :=
  match r with
  | Ok (a, _) => Some a
  | Panic _ => None
  end.

(** ** A concrete world and concrete call sequences *)

(** The runtime's policy for small slices: double, or take what is asked
    when that is more. *)
Definition doublingGrowth (oldCap newLen : nat) : nat :=
  if 2 * oldCap <? newLen then newLen else 2 * oldCap.

Definition exampleWorld : World :=
  mkWorld ∅ 1 0 1700000000 doublingGrowth (fun d => itoa d +:+ "ns")
    [ mkCaller 4198400 "github.com/notjustmoney/errors/stack_trace.go" 31 (Some "newStacktrace");
      mkCaller 4198912 "github.com/notjustmoney/errors/builder.go" 64 (Some "ErrorBuilder.wrap");
      mkCaller 4199424 "app/service.go" 42 (Some "refresh");
      mkCaller 4199936 "app/main.go" 17 (Some "main") ]
    "/usr/local/go" "github.com/notjustmoney/errors".



(** [WithTag(outerTags...).Wrap(WithTag(innerTags...).Error("boom"))],
    then [Tags()]. *)
Definition taggedChain (outerTags innerTags : list string) : M (list string) :=
  b ← newBuilder;
  bi ← foldl (fun c t => b' ← c; ErrorBuilder.WithTag b' t) (mret b) innerTags;
  inner ← ErrorBuilder.Error bi "boom";
  b ← newBuilder;
  bo ← foldl (fun c t => b' ← c; ErrorBuilder.WithTag b' t) (mret b) outerTags;
  outer ← ErrorBuilder.Wrap bo inner;
  w ← getWorld;
  mret (Error.Tags (heap w) (assertError outer)).

(** A builder as [newBuilder()] returns it. *)
Definition exampleBuilder : ErrorBuilder :=
  mkFields nil None None None None nilSlice nilSlice nilSlice
           None None None None None nilSlice 1700000000%Z
           zeroHelp zeroResource nilSlice zeroRetry [].

(** The fields a terminal operation takes over from the builder as they are. *)
Definition keptFrom (b e : Fields error) : Prop :=
  reason e = reason b /\ domain e = domain b /\ userID e = userID b /\
  tenantID e = tenantID b /\ trace e = trace b /\ help e = help b /\
  resource e = resource b /\ retry e = retry b.

(** A sentinel of some other package, such as [fs.ErrExist]. *)
Definition sentinel : error := errorString 0 "file already exists".


(** Time passing on the wall clock. *)
Definition sleep (d : Z) : M unit := fun w => Ok (tt, elapse d w).

(** [b := WithMetadata("a", "1")], then [b.WithMetadata("b", "2")]: what
    [b] holds under the key ["b"] before and after the second call. *)
Definition metadataBranches : M (option string * option string) :=
  b ← WithMetadata "a" "1";
  w1 ← getWorld;
  b2 ← ErrorBuilder.WithMetadata b "b" "2";
  w2 ← getWorld;
  mret (mapRead (heap w1) (metadata b) !! "b", mapRead (heap w2) (metadata b) !! "b").

(** Two branches [bx := b.WithTag("x")] and [b.WithTag("y")] off a builder
    [b] with three tags: the tags of [bx] before and after the second
    branch, and those of [b]. *)
Definition tagBranches : M (list string * list string * list string) :=
  b1 ← WithTag "a";
  b2 ← ErrorBuilder.WithTag b1 "b";
  b ← ErrorBuilder.WithTag b2 "c";
  bx ← ErrorBuilder.WithTag b "x";
  w1 ← getWorld;
  by_ ← ErrorBuilder.WithTag b "y";
  w2 ← getWorld;
  mret (sliceRead (heap w1) (tags bx), sliceRead (heap w2) (tags bx), sliceRead (heap w2) (tags b)).

(** [e := Wrap(New("boom"))], then [e.Trace()] twice: the two results, and
    the field [e.trace] after each call. *)
Definition traceTwice : M ((option string * option string) * (option string * option string)) :=
  inner ← New "boom";
  outer ← Wrap inner;
  '(t1, p1) ← Error.Trace (assertError outer);
  '(t2, p2) ← Error.Trace p1;
  mret ((t1, t2), (p1 ≫= (fun n => trace n.2), p2 ≫= (fun n => trace n.2))).

(** [Wrap(New("boom")).LogValue()]. *)
Definition logWrapped : M slogValue :=
  inner ← New "boom";
  outer ← Wrap inner;
  '(v, _) ← Error.LogValue (assertError outer);
  mret v.

(** [Reason("r").RequestID(id).Error("m")], then [RequestID()]. *)
Definition requestIDRoundTrip (requestID_ : string) : M (result (option string)) :=
  b ← Reason "r";
  e ← ErrorBuilder.Error (ErrorBuilder.RequestID b requestID_) "m";
  mret (Error.RequestID (assertError e)).

(** The clock at [New("m")], and [Time()] read [d] later. *)
Definition creationTime (d : Z) : M (Z * Z) :=
  built ← time_Now;
  e ← New "m";
  sleep d;;
  '(t, _) ← Error.Time (assertError e);
  mret (built, t).

(** A slice whose array is on the heap, below the allocator. *)
Definition wfSlice `{Elem T} (w : World) (s : slice) : Prop :=
  s_len s <= s_cap s /\
  (0 < s_cap s ->
   s_ptr s < next w /\
   exists a : list T, arrayAt (heap w) (s_ptr s) = Some a /\ length a = s_cap s).

(** The references held by a builder point below the allocator. *)
Definition wfBuilder (w : World) (b : ErrorBuilder) : Prop :=
  (forall a, metadata b = Some a -> a < next w) /\
  Forall (fun s => 0 < s_len s -> s_ptr s < next w)
    [quotaViolations b; preconditionViolations b; fieldViolations b; tags b; localizations b].

(** ** What the properties below speak of *)

(** [y] is met when walking the [Unwrap] tree of [x], [x] included. *)
Inductive unwraps : error -> error -> Prop :=
| unwraps_here x : unwraps x x
| unwraps_wrapError a msg e y : unwraps e y -> unwraps (wrapError a msg e) y
| unwraps_wrapErrors a msg errs e y :
    e ∈ errs -> unwraps e y -> unwraps (wrapErrors a msg errs) y
| unwraps_joinError a errs e y :
    e ∈ errs -> unwraps e y -> unwraps (joinError a errs) y
| unwraps_ErrorPtr a e y : unwraps (err e) y -> unwraps (ErrorPtr a e) y.

(** [c] returns when run in [w]. *)
Definition okAt {A} (c : M A) (w : World) : Prop := exists a w', c w = Ok (a, w').

(** The test [newStacktrace] applies to a frame before keeping it. *)
Definition retained (goroot pkg : string) (c : callerFrame) : bool :=
  negb ((0 <? String.length goroot) && strings_Contains (c_file c) goroot)
  && (negb (strings_Contains (c_file c) pkg)
      || strings_Contains (c_file c) (pkg +:+ "/examples/")
      || strings_Contains (c_file c) "_test.go").

(** The frames up to the first one without a function, each with its
    function name. *)
Fixpoint withFunction (cs : list callerFrame) : list (callerFrame * string) :=
  match cs with
  | [] => []
  | c :: rest =>
      match c_func c with
      | None => []
      | Some fn => (c, fn) :: withFunction rest
      end
  end.

Definition frameOf (cf : callerFrame * string) : stackTraceFrame :=
  mkFrame (c_pc cf.1) (c_file cf.1) cf.2 (c_line cf.1).

(** What [newStacktrace] is to return: the retained frames among those
    with a function, cut at the depth bound. *)
Definition retainedFrames (goroot pkg : string) (cs : list callerFrame) : stackTrace :=
  map frameOf (filter (fun cf => retained goroot pkg cf.1 = true) (withFunction cs)).

(** The frames [StringUntilFrame] prints: those with a file, up to the
    first one that equals [deepestFrame]. *)
Fixpoint printedFrames (deepestFrame : stackTraceFrame) (st : stackTrace) : stackTrace :=
  match st with
  | [] => []
  | frame :: rest =>
      if bool_decide (file frame = EmptyString) then printedFrames deepestFrame rest
      else if frame_Equals frame deepestFrame then []
      else frame :: printedFrames deepestFrame rest
  end.

Definition frameLine (f : stackTraceFrame) : string := "  --- at " +:+ frame_String f.

Fixpoint lastChar (s : string) : option ascii :=
  match s with
  | EmptyString => None
  | String c EmptyString => Some c
  | String _ rest => lastChar rest
  end.

Definition newline : ascii := Ascii.ascii_of_nat 10.

(** [s] followed by the lines, every line on a line of its own. *)
Definition linesAfter (s : string) (lines : list string) : string :=
  match lines with
  | [] => s
  | _ => if bool_decide (s = EmptyString) then strings_Join lines nl
         else s +:+ (nl +:+ strings_Join lines nl)
  end.

(** Whether the byte occurs in the string. *)
Fixpoint hasByte (c : ascii) (s : string) : bool :=
  match s with
  | EmptyString => false
  | String x rest => bool_decide (x = c) || hasByte c rest
  end.

(** ** [shortenFuncName] *)

(** [strings.Index(s, sep)] for a separator of one byte: the index of its
    first occurrence, or -1. *)
Fixpoint strings_Index (s : string) (sep : ascii) : Z :=
  match s with
  | EmptyString => (-1)%Z
  | String c rest =>
      if bool_decide (c = sep) then 0%Z
      else let i := strings_Index rest sep in
           if (i <? 0)%Z then (-1)%Z else (i + 1)%Z
  end.

(** [strings.LastIndex(s, sep)] for a separator of one byte. *)
Fixpoint strings_LastIndex (s : string) (sep : ascii) : Z :=
  match s with
  | EmptyString => (-1)%Z
  | String c rest =>
      let i := strings_LastIndex rest sep in
      if (0 <=? i)%Z then (i + 1)%Z
      else if bool_decide (c = sep) then 0%Z else (-1)%Z
  end.

(** The slice expression [s[n:]]. *)
Fixpoint sliceFrom (n : nat) (s : string) : string :=
  match n, s with
  | 0, _ => s
  | S n', String _ rest => sliceFrom n' rest
  | S _, EmptyString => EmptyString
  end.

(** [strings.Replace] of the first occurrence of [old], one byte long, by
    the empty string. *)
Fixpoint removeFirst (old : ascii) (s : string) : string :=
  match s with
  | EmptyString => EmptyString
  | String c rest => if bool_decide (c = old) then rest else String c (removeFirst old rest)
  end.

(** [shortenFuncName], on the name [f.Name()] gives. *)
Definition shortenFuncName (longName : string) : string :=
  let withoutPath := sliceFrom (Z.to_nat (strings_LastIndex longName "/" + 1)) longName in
  let withoutPackage := sliceFrom (Z.to_nat (strings_Index withoutPath "." + 1)) withoutPath in
  let shortName := withoutPackage in
  let shortName := removeFirst "(" shortName in
  let shortName := removeFirst "*" shortName in
  let shortName := removeFirst ")" shortName in
  shortName.

(** ** [formatVerbose] and [Format] *)
(** Code that writes to a local [strings.Builder]: the text written so far
    is threaded through, over the effects of [M]. *)
Definition SB (A : Type) : Type := string -> M (A * string).

#[global] Instance SB_ret : MRet SB := fun A a sb => mret (a, sb).

#[global] Instance SB_bind : MBind SB := fun A B f c sb =>
  r ← c sb; f r.1 r.2.

Definition WriteString (s : string) : SB unit := fun sb => mret (tt, sb +:+ s).

(** A call that does not touch the builder. *)
Definition call {A} (c : M A) : SB A := fun sb => a ← c; mret (a, sb).

(** [for _, x := range l { body }]. *)
Fixpoint forRange {A} (l : list A) (body : A -> SB unit) : SB unit :=
  match l with
  | [] => mret tt
  | x :: l => body x;; forRange l body
  end.

Definition tab : string := String (Ascii.ascii_of_nat 9) EmptyString.

Definition printTab : SB unit := WriteString tab.

(** [formatVerbose]; [timeString] stands for [time.Time.String].  The
    receiver comes back because [Trace] and [Time] may assign to it; the
    entries of the metadata map come in the order of [map_to_list]. *)
Definition formatVerbose (timeString : Z -> string) (p : PtrError) : M (string * PtrError) :=
  match p with
  | None => panic nilDeref
  | Some (_, e) =>
      r ← (WriteString "Error: ";;
           text ← call (liftR (Error.Error p));
           WriteString text;;
           WriteString nl;;
           match Error.Reason p with
           | Some reason_ =>
               WriteString "Reason: ";; WriteString reason_;; WriteString nl
           | None => mret tt
           end;;
           match Error.Domain p with
           | Some domain_ =>
               WriteString "Domain: ";; WriteString domain_;; WriteString nl
           | None => mret tt
           end;;
           w ← call getWorld;
           let metadata_ := mapRead (heap w) (Error.Metadata p) in
           (if 0 <? size metadata_ then
              WriteString ("Metadata:" +:+ nl);;
              forRange (map_to_list metadata_) (fun kv =>
                printTab;;
                WriteString kv.1;; WriteString ": ";; WriteString kv.2;; WriteString nl)
            else mret tt);;
           let quotaViolations_ := sliceRead (heap w) (Error.QuotaViolations p) in
           (if 0 <? length quotaViolations_ then
              WriteString ("QuotaViolations:" +:+ nl);;
              forRange quotaViolations_ (fun violation =>
                printTab;;
                WriteString ("QuotaViolation:" +:+ nl);;
                printTab;; printTab;;
                WriteString "Subject: ";; WriteString (q_Subject violation);; WriteString nl;;
                printTab;; printTab;;
                WriteString "Description: ";; WriteString (q_Description violation);;
                WriteString nl)
            else mret tt);;
           let preconditionViolations_ :=
             sliceRead (heap w) (Error.PreconditionViolations p) in
           (if 0 <? length preconditionViolations_ then
              WriteString ("PreconditionViolations:" +:+ nl);;
              forRange preconditionViolations_ (fun violation =>
                printTab;;
                WriteString ("PreconditionViolation:" +:+ nl);;
                printTab;; printTab;;
                WriteString "Type: ";; WriteString (p_Type violation);; WriteString nl;;
                printTab;; printTab;;
                WriteString "Subject: ";; WriteString (p_Subject violation);; WriteString nl;;
                printTab;; printTab;;
                WriteString "Description: ";; WriteString (p_Description violation);;
                WriteString nl)
            else mret tt);;
           let fieldViolations_ := sliceRead (heap w) (Error.FieldViolations p) in
           (if 0 <? length fieldViolations_ then
              WriteString ("FieldViolations:" +:+ nl);;
              forRange fieldViolations_ (fun violation =>
                printTab;;
                WriteString ("FieldViolation:" +:+ nl);;
                printTab;; printTab;;
                WriteString "Field: ";; WriteString (Field violation);; WriteString nl;;
                printTab;; printTab;;
                WriteString "Description: ";; WriteString (f_Description violation);;
                WriteString nl)
            else mret tt);;
           match userID e with
           | Some userID_ =>
               WriteString "UserId: ";; WriteString userID_;; WriteString nl
           | None => mret tt
           end;;
           match tenantID e with
           | Some tenantID_ =>
               WriteString "TenantId: ";; WriteString tenantID_;; WriteString nl
           | None => mret tt
           end;;
           traced ← call (Error.Trace p);
           let p := traced.2 in
           match traced.1 with
           | Some trace_ =>
               WriteString "Trace: ";; WriteString trace_;; WriteString nl
           | None => mret tt
           end;;
           span_ ← call (liftR (Error.Span p));
           match span_ with
           | Some s => WriteString "Span: ";; WriteString s;; WriteString nl
           | None => mret tt
           end;;
           requestID_ ← call (liftR (Error.RequestID p));
           match requestID_ with
           | Some r => WriteString "RequestId: ";; WriteString r;; WriteString nl
           | None => mret tt
           end;;
           w ← call getWorld;
           let tags_ := Error.Tags (heap w) p in
           (if 0 <? length tags_ then
              WriteString "Tags: ";;
              WriteString "[";;
              WriteString (strings_Join tags_ ", ");;
              WriteString ("]" +:+ nl)
            else mret tt);;
           timed ← call (Error.Time p);
           let p := timed.2 in
           (if negb (IsZero timed.1) then
              WriteString "Time: ";; WriteString (timeString timed.1);; WriteString nl
            else mret tt);;
           let help_ := Error.Help p in
           (if bool_decide (help_ ≠ zeroHelp) then
              WriteString ("Help:" +:+ nl);;
              printTab;;
              WriteString "Description: ";;
              WriteString (h_Description help_);;
              printTab;;
              WriteString (tab +:+ "URL: ");;
              WriteString (URL help_);;
              WriteString nl
            else mret tt);;
           let resource_ := Error.Resource p in
           (if bool_decide (resource_ ≠ zeroResource) then
              WriteString ("Resource:" +:+ nl);;
              printTab;;
              WriteString "Type: ";;
              WriteString (r_Type resource_);;
              printTab;;
              WriteString "Name: ";;
              WriteString (r_Name resource_);;
              (if negb (bool_decide (r_Owner resource_ = EmptyString)) then
                 printTab;; WriteString "Owner: ";; WriteString (r_Owner resource_)
               else mret tt);;
              (if negb (bool_decide (r_Description resource_ = EmptyString)) then
                 printTab;; WriteString "Description: ";;
                 WriteString (r_Description resource_)
               else mret tt);;
              WriteString nl
            else mret tt);;
           w ← call getWorld;
           let localizations_ := sliceRead (heap w) (Error.Localizations p) in
           (if 0 <? length localizations_ then
              WriteString ("Localizations:" +:+ nl);;
              forRange localizations_ (fun l =>
                printTab;;
                WriteString "Locale: ";;
                WriteString (Locale l);;
                printTab;;
                WriteString "Message: ";;
                WriteString (l_Message l);;
                WriteString nl)
            else mret tt);;
           let retry_ := Error.Retry p in
           (if bool_decide (retry_ ≠ zeroRetry) then
              WriteString ("Retry:" +:+ nl);;
              printTab;;
              WriteString "Delay: ";;
              WriteString (durationString w (Delay retry_));;
              WriteString nl
            else mret tt);;
           let st := Error.StackTrace p in
           (if negb (bool_decide (st = EmptyString)) then
              WriteString st;; WriteString nl
            else mret tt);;
           mret p) EmptyString;
      mret (r.2, r.1)
  end.

Definition formatSummary (p : PtrError) : M (string * PtrError) :=
  text ← liftR (Error.Error p); mret (text, p).

(** [Format]: what is printed to the state [s], [plus] being [s.Flag('+')]. *)
Definition Format (timeString : Z -> string) (p : PtrError) (plus : bool) (verb : ascii)
  : M (string * PtrError) :=
  if bool_decide (verb = "v"%char) && plus then formatVerbose timeString p
  else formatSummary p.

(** [c] returns, with a result in [Q], and only appends to the builder. *)
Definition appends {A} (Q : A -> Prop) (c : SB A) : Prop :=
  forall sb w, exists a rest w', c sb w = Ok ((a, sb +:+ rest), w') /\ Q a.

(** ** Further concrete values *)

(** A goroutine whose frames all lie in the application. *)
Definition appWorld : World :=
  mkWorld ∅ 1 0 1700000000 doublingGrowth (fun d => itoa d +:+ "ns")
    [ mkCaller 4199424 "app/service.go" 42 (Some "refresh");
      mkCaller 4199936 "app/main.go" 17 (Some "main") ]
    "/usr/local/go" "github.com/notjustmoney/errors".


(** A node with a message and a stack of two frames, the second without a file. *)
Definition framedNode : Error :=
  set_stackTrace [mkFrame 4199424 "app/service.go" "refresh" 42;
                  mkFrame 4199936 EmptyString "main" 17]
    (set_message (Some "boom") exampleBuilder).

(** * Properties *)

(** ** Unfolding the resolver *)

Lemma isNil_As x : isNil x = true -> errors_As x = None.
Proof. destruct x; simpl; congruence. Qed.

Lemma recursiveAttr_step {T} (zero : T) a e attr :
  recursiveAttr zero (Some (a, e)) attr =
  match errors_As (err e) with
  | Some child => recursiveAttr zero (Some child) attr
  | None => attr e
  end.
Proof.
  simp recursiveAttr.
  destruct (inspect (isNil (err e))) as [[] Hn]; simp recursiveAttr.
  - now rewrite (isNil_As _ Hn).
  - destruct (inspect (errors_As (err e))) as [[c|] Hc]; simp recursiveAttr; now rewrite Hc.
Qed.

Lemma recursive_step {St} a e (tap : Error -> St -> St) s :
  recursive (Some (a, e)) tap s =
  match errors_As (err e) with
  | Some child => recursive (Some child) tap (tap e s)
  | None => tap e s
  end.
Proof.
  simp recursive.
  destruct (inspect (isNil (err e))) as [[] Hn]; simp recursive.
  - now rewrite (isNil_As _ Hn).
  - destruct (inspect (errors_As (err e))) as [[c|] Hc]; simp recursive; now rewrite Hc.
Qed.

Lemma chain_step a e :
  chain (Some (a, e)) =
  match errors_As (err e) with
  | Some child => e :: chain (Some child)
  | None => [e]
  end.
Proof.
  simp chain.
  destruct (inspect (errors_As (err e))) as [[c|] Hc]; simp chain; now rewrite Hc.
Qed.

(** Induction along the chain. *)
Lemma PtrError_chain_ind (P : PtrError -> Prop) :
  P None ->
  (forall a e, errors_As (err e) = None -> P (Some (a, e))) ->
  (forall a e child, errors_As (err e) = Some child -> P (Some child) -> P (Some (a, e))) ->
  forall p, P p.
Proof.
  intros H0 H1 H2 p.
  remember (psize p) as n eqn:Hn. revert p Hn.
  induction n as [n IH] using lt_wf_ind. intros [[a e]|] Hn; [|exact H0].
  destruct (errors_As (err e)) as [child|] eqn:E.
  - apply (H2 a e child E). apply (IH (psize (Some child))); [|reflexivity].
    apply As_size in E. subst n. simpl in *. lia.
  - now apply H1.
Qed.


Lemma recursive_foldl {St} (tap : Error -> St -> St) p : forall s,
  recursive p tap s = foldl (fun acc e => tap e acc) s (chain p).
Proof.
  induction p as [|a e E|a e child E IH] using PtrError_chain_ind; intros s.
  - reflexivity.
  - rewrite recursive_step, chain_step, E. reflexivity.
  - rewrite recursive_step, chain_step, E, IH. reflexivity.
Qed.

(** ** Running the monad *)

Ltac run_M :=
  repeat (unfold mbind, M_bind, mret, M_ret, makeMap, lo_Assign, alloc, newAddr, getWorld,
            newStacktrace, uuid_NewString, time_Now, errors_New, panic, liftR, store, setHeap; simpl).

Lemma deepCopyPtr_id {T} (p : option T) : deepCopyPtr p = p.
Proof. now destruct p. Qed.

(** ** The terminal operations of the builder *)

Lemma Error_ok b msg w :
  exists a e w', ErrorBuilder.Error b msg w = Ok (ErrorPtr a e, w') /\
    err e = err b /\ message e = Some msg /\ span e = span b /\ keptFrom b e /\
    requestID e = None /\ time e = 0%Z /\
    stackTrace_ e = captureFrames (GOROOT w) (packageName w) (callers w) [].
Proof.
  unfold ErrorBuilder.Error, ErrorBuilder.deepCopy. rewrite !deepCopyPtr_id. run_M.
  do 3 eexists. split; [reflexivity|]. unfold keptFrom. simpl. repeat split; try reflexivity.
Qed.

Lemma wrap_ok b x w :
  isNil x = false ->
  exists a e w', ErrorBuilder.wrap b x w = Ok (Some (a, e), w') /\
    err e = x /\ message e = message b /\ keptFrom b e /\
    span e = Some (default (uuidText (uuids w)) (span b)) /\
    requestID e = None /\ time e = 0%Z /\
    stackTrace_ e = captureFrames (GOROOT w) (packageName w) (callers w) [] /\
    uuids w <= uuids w' /\ now w' = now w /\ growslice w' = growslice w /\ durationString w' = durationString w
    /\ callers w' = callers w /\ GOROOT w' = GOROOT w /\ packageName w' = packageName w.
Proof.
  intros Hx. unfold ErrorBuilder.wrap, ErrorBuilder.deepCopy. rewrite Hx, !deepCopyPtr_id. run_M.
  destruct (span b) as [sp|]; run_M; do 3 eexists; (split; [reflexivity|]);
    unfold keptFrom; simpl; repeat split; lia.
Qed.

Lemma Wrap_ok b x w :
  isNil x = false ->
  exists a e w', ErrorBuilder.Wrap b x w = Ok (ErrorPtr a e, w') /\
    err e = x /\ message e = message b /\ keptFrom b e /\
    span e = Some (default (uuidText (uuids w)) (span b)) /\
    requestID e = None /\ time e = 0%Z /\
    stackTrace_ e = captureFrames (GOROOT w) (packageName w) (callers w) [].
Proof.
  intros Hx. destruct (wrap_ok b x w Hx) as (a & e & w' & Hrun & H).
  exists a, e, w'. split; [|tauto].
  unfold ErrorBuilder.Wrap. unfold mbind at 1, M_bind at 1. now rewrite Hrun.
Qed.

(** ** Identity *)

Lemma error_eqb_refl x : error_eqb x x = true.
Proof. destruct x; simpl; auto using Nat.eqb_refl. Qed.

Lemma errors_is_refl x target : error_eqb x target = true -> errors_is x target = true.
Proof. intros H. destruct x; simpl in *; rewrite ?H; reflexivity. Qed.

Lemma errors_is_ErrorPtr a e target :
  errors_is (ErrorPtr a e) target =
  error_eqb (ErrorPtr a e) target
  || (((if isNil (err e) || isNil target then error_eqb (err e) target
        else errors_is (err e) target)
       || error_eqb (ErrorPtr a e) target)
      || (if isNil (err e) then false else errors_is (err e) target)).
Proof. reflexivity. Qed.

Lemma errors_Is_cause a e s :
  isNil s = false -> errors_is (err e) s = true -> errors_Is (ErrorPtr a e) s = true.
Proof.
  intros Hs H. unfold errors_Is. rewrite Hs. cbn [isNil orb].
  rewrite errors_is_ErrorPtr, Hs, orb_false_r.
  destruct (isNil (err e)) eqn:E.
  - destruct (err e); try discriminate. destruct s; simpl in *; discriminate.
  - rewrite H. simpl. apply orb_true_r.
Qed.

Lemma wrappedOperands_elem args nums s i :
  i ∈ nums -> args !! i = Some (AnyError s) -> s ∈ wrappedOperands args nums.
Proof.
  intros Hi Hargs. apply list_elem_of_omap. exists i. split; [exact Hi|]. now rewrite Hargs.
Qed.

(** [fmt.Errorf] never fails, renders the text [doPrintf] built and wraps
    what was met under [%w]. *)
Lemma fmt_Errorf_ok format args w :
  exists f w', fmt_Errorf format args w = Ok (f, w') /\
    isNil f = false /\
    error_Error f = (doPrintf format args 0).1 /\
    (forall s i, isNil s = false -> i ∈ (doPrintf format args 0).2 ->
                 args !! i = Some (AnyError s) -> errors_is f s = true) /\
    uuids w' = uuids w /\ now w' = now w /\ callers w' = callers w /\
    GOROOT w' = GOROOT w /\ packageName w' = packageName w.
Proof.
  unfold fmt_Errorf.
  destruct (doPrintf format args 0) as [txt nums]. cbn [fst snd].
  destruct nums as [|i [|j nums]].
  - run_M. do 2 eexists. split; [reflexivity|]. repeat split.
    intros s k _ Hk. inversion Hk.
  - run_M. do 2 eexists. split; [reflexivity|]. repeat split.
    intros s k Hs Hk Hargs. apply list_elem_of_singleton in Hk. subst k. rewrite Hargs.
    cbn [errors_is]. rewrite Hs, (errors_is_refl s s (error_eqb_refl s)). apply orb_true_r.
  - set (nums' := i :: j :: nums). unfold mbind, M_bind, newAddr, mret, M_ret.
    do 2 eexists. split; [reflexivity|]. repeat split.
    intros s k Hs Hk Hargs. cbn [errors_is]. apply orb_true_iff. right.
    apply existsb_exists. exists s. split; [|apply errors_is_refl, error_eqb_refl].
    apply list_elem_of_In. eapply wrappedOperands_elem; eauto.
Qed.

Lemma Errorf_ok b format args w :
  exists a e f w', ErrorBuilder.Errorf b format args w = Ok (ErrorPtr a e, w') /\
    err e = f /\ isNil f = false /\
    error_Error f = (doPrintf format args 0).1 /\
    (forall s i, isNil s = false -> i ∈ (doPrintf format args 0).2 ->
                 args !! i = Some (AnyError s) -> errors_is f s = true) /\
    message e = message b /\ span e = span b /\ keptFrom b e /\
    requestID e = None /\ time e = 0%Z /\
    stackTrace_ e = captureFrames (GOROOT w) (packageName w) (callers w) [].
Proof.
  unfold ErrorBuilder.Errorf, ErrorBuilder.deepCopy. rewrite !deepCopyPtr_id.
  unfold mbind at 1 2 3, M_bind at 1 2 3. run_M.
  match goal with |- context [fmt_Errorf format args ?w1] =>
    destruct (fmt_Errorf_ok format args w1) as (f & w' & Hf & Hnil & Htxt & Hw & _ & _ & Hc & Hg & Hp);
    rewrite Hf end.
  run_M. exists (next w'). eexists. exists f. eexists. split; [reflexivity|].
  unfold keptFrom. simpl in *. rewrite Hc, Hg, Hp. repeat split; auto.
Qed.


Lemma errors_Join_nil errs w :
  Forall (fun e => e = nil) errs -> errors_Join errs w = Ok (nil, w).
Proof.
  intros H. unfold errors_Join.
  assert (E : filter (fun e => isNil e = false) errs = []).
  { induction H as [|x l Hx _ IH]; [reflexivity|]. subst x.
    rewrite filter_cons_False; [exact IH|]. simpl. discriminate. }
  rewrite E. reflexivity.
Qed.

(** ** [lo.Uniq] against the specification's removal of duplicates *)

Lemma lo_Uniq_loop (l : list string) : forall (seen : gset string) (acc : list string),
  (foldl (fun (st : gset string * list string) x =>
            if decide (x ∈ st.1) then st else ({[x]} ∪ st.1, st.2 ++ [x]))
         (seen, acc) l).2
  = acc ++ filter (fun y => y ∉ seen) (dedupFirst l).
Proof.
  induction l as [|x l IH]; intros seen acc; simpl.
  - now rewrite app_nil_r.
  - destruct (decide (x ∈ seen)) as [Hin|Hnin]; simpl.
    + rewrite IH. f_equal. rewrite filter_cons_False by (intros H; exact (H Hin)).
      rewrite list_filter_filter. apply list_filter_iff. intros y. split; [|tauto].
      intros Hy. split; [exact Hy|]. intros ->. contradiction.
    + rewrite IH, <- app_assoc. simpl. f_equal.
      rewrite filter_cons_True by exact Hnin. f_equal.
      rewrite list_filter_filter. apply list_filter_iff. intros y.
      rewrite elem_of_union, elem_of_singleton. tauto.
Qed.

Lemma filter_all {A} (P : A -> Prop) `{forall x, Decision (P x)} (l : list A) :
  (forall x, P x) -> filter P l = l.
Proof.
  intros HP. induction l as [|x l IH]; [reflexivity|].
  rewrite filter_cons_True by apply HP. now rewrite IH.
Qed.

Lemma lo_Uniq_dedupFirst (l : list string) : lo_Uniq l = dedupFirst l.
Proof.
  unfold lo_Uniq. rewrite lo_Uniq_loop. simpl.
  apply filter_all. intros y. set_solver.
Qed.

Lemma dedupFirst_elem (l : list string) x : x ∈ dedupFirst l <-> x ∈ l.
Proof.
  induction l as [|y l IH]; simpl; [reflexivity|].
  rewrite !elem_of_cons, list_elem_of_filter, IH.
  destruct (decide (x = y)); tauto.
Qed.

Lemma dedupFirst_NoDup (l : list string) : NoDup (dedupFirst l).
Proof.
  induction l as [|y l IH]; simpl; constructor.
  - rewrite list_elem_of_filter. tauto.
  - now apply NoDup_filter.
Qed.

Lemma foldl_app_concat {A B} (f : A -> list B) (l : list A) : forall acc,
  foldl (fun acc e => acc ++ f e) acc l = acc ++ concat (map f l).
Proof.
  induction l as [|x l IH]; intros acc; simpl.
  - now rewrite app_nil_r.
  - now rewrite IH, app_assoc.
Qed.

(** ** Setters and shared storage *)

(** A setter on a builder that already holds a map writes into that map:
    the builder returned is the receiver, and the receiver's map has the
    new entry. *)
Lemma WithMetadata_shared b key value w a :
  metadata b = Some a ->
  exists w', ErrorBuilder.WithMetadata b key value w = Ok (b, w') /\
    mapRead (heap w') (metadata b) = <[key := value]> (mapRead (heap w) (metadata b)).
Proof.
  intros Hm. unfold ErrorBuilder.WithMetadata, mapAssign. rewrite Hm. run_M.
  rewrite Hm. run_M. eexists. split; [reflexivity|]. simpl.
  now rewrite lookup_insert_eq.
Qed.

(** On a builder without a map the setter allocates one, and the receiver
    stays without. *)
Lemma WithMetadata_fresh b key value w :
  metadata b = None ->
  exists w', ErrorBuilder.WithMetadata b key value w = Ok (set_metadata (Some (next w)) b, w') /\
    mapRead (heap w') (Some (next w)) = {[key := value]} /\
    mapRead (heap w') (metadata b) = ∅.
Proof.
  intros Hm. unfold ErrorBuilder.WithMetadata, mapAssign. rewrite Hm. run_M.
  eexists. split; [reflexivity|]. simpl. rewrite !lookup_insert_eq. split; [|reflexivity].
  now rewrite insert_empty.
Qed.

Lemma arrayAt_insert `{Elem T} (h : gmap nat object) (p : nat) (a : list T) :
  arrayAt (<[p := to_obj a]> h) p = Some a.
Proof. unfold arrayAt. rewrite lookup_insert_eq. simpl. apply of_to_obj. Qed.

Lemma sliceRead_empty `{Elem T} (h : gmap nat object) (s : slice) :
  s_len s = 0 -> sliceRead h s = ([] : list T).
Proof. intros E. unfold sliceRead. rewrite E. now destruct (arrayAt h (s_ptr s)). Qed.

Lemma sliceRead_length `{Elem T} (w : World) (s : slice) :
  wfSlice (T:=T) w s -> length (sliceRead (T:=T) (heap w) s) = s_len s.
Proof.
  intros [Hle Hwf]. destruct (decide (s_cap s = 0)) as [E|NE].
  - rewrite sliceRead_empty by lia. simpl. lia.
  - destruct Hwf as (_ & a & Ha & Hlen); [lia|].
    unfold sliceRead. rewrite Ha, length_take. lia.
Qed.

(** [append] gives the old elements followed by the new one, and the
    slice appended to still reads as before. *)
Lemma append_ok `{Elem T} (s : slice) (x : T) (w : World) :
  wfSlice (T:=T) w s ->
  exists s' w', append s x w = Ok (s', w') /\
    sliceRead (heap w') s' = sliceRead (heap w) s ++ [x] /\
    sliceRead (T:=T) (heap w') s = sliceRead (heap w) s /\
    s_len s' = S (s_len s).
Proof.
  intros Hwfs. pose proof (sliceRead_length w s Hwfs) as Hview.
  destruct Hwfs as [Hle Hwf]. unfold append.
  destruct (s_len s <? s_cap s) eqn:Hlt.
  - apply Nat.ltb_lt in Hlt. destruct Hwf as (Hp & a & Ha & Hlen); [lia|].
    rewrite Ha. do 2 eexists. split; [reflexivity|]. simpl.
    unfold sliceRead. rewrite arrayAt_insert, Ha. simpl.
    repeat split.
    + rewrite (take_S_r _ _ x) by (apply list_lookup_insert_eq; lia).
      f_equal. apply take_insert_ge. lia.
    + rewrite arrayAt_insert. apply take_insert_ge. lia.
  - apply Nat.ltb_ge in Hlt. run_M. do 2 eexists. split; [reflexivity|]. simpl.
    repeat split.
    + unfold sliceRead at 1. simpl. rewrite arrayAt_insert.
      rewrite <- Hview at 1. change (S ?n) with (1 + n) at 1. rewrite Nat.add_comm.
      rewrite take_app_add. reflexivity.
    + destruct (decide (s_cap s = 0)) as [E|NE].
      * rewrite !sliceRead_empty by lia. reflexivity.
      * destruct Hwf as (Hp & _); [lia|].
        unfold sliceRead, arrayAt. rewrite lookup_insert_ne by lia. reflexivity.
Qed.

(** Well-formed slices stay well-formed under [append], the slice
    appended to and every other slice of the same element type alike. *)
Lemma append_wf `{Elem T} (s : slice) (x : T) (w : World) s' w' :
  wfSlice (T:=T) w s -> append s x w = Ok (s', w') ->
  wfSlice (T:=T) w' s' /\ forall s2, wfSlice (T:=T) w s2 -> wfSlice (T:=T) w' s2.
Proof.
  intros [Hle Hwf]. unfold append.
  destruct (s_len s <? s_cap s) eqn:Hlt.
  - apply Nat.ltb_lt in Hlt. destruct Hwf as (Hp & a & Ha & Hlen); [lia|].
    rewrite Ha. intros [= <- <-]. split.
    + split; simpl; [lia|]. intros _. split; [exact Hp|].
      exists (<[s_len s := x]> a). split; [apply arrayAt_insert|]. now rewrite length_insert.
    + intros s2 [Hle2 Hwf2]. split; [exact Hle2|]. intros Hc.
      destruct (Hwf2 Hc) as (Hp2 & a2 & Ha2 & Hlen2). simpl. split; [exact Hp2|].
      destruct (decide (s_ptr s2 = s_ptr s)) as [E|NE].
      * rewrite E in *. rewrite Ha in Ha2. injection Ha2 as <-.
        exists (<[s_len s := x]> a). split; [apply arrayAt_insert|]. now rewrite length_insert.
      * exists a2. split; [|exact Hlen2]. unfold arrayAt. now rewrite lookup_insert_ne.
  - apply Nat.ltb_ge in Hlt. unfold mbind, M_bind, alloc, mret, M_ret. intros [= <- <-]. split.
    + split; simpl; [lia|]. intros _. split; [lia|].
      eexists. split; [apply arrayAt_insert|].
      assert (Hview : length (sliceRead (T:=T) (heap w) s) = s_len s)
        by (apply sliceRead_length; split; assumption).
      rewrite length_app, Hview. simpl. rewrite length_replicate. lia.
    + intros s2 [Hle2 Hwf2]. split; [exact Hle2|]. intros Hc.
      destruct (Hwf2 Hc) as (Hp2 & a2 & Ha2 & Hlen2). simpl. split; [lia|].
      exists a2. split; [|exact Hlen2]. unfold arrayAt. rewrite lookup_insert_ne by lia. exact Ha2.
Qed.

Lemma nilSlice_wf `{Elem T} (w : World) : wfSlice (T:=T) w nilSlice.
Proof. split; simpl; [lia|]. intros Hc. inversion Hc. Qed.

(** X9: after [b2 = b.WithTag(tag)] on a builder whose tag slice is well
    formed, [b2] reads the old tags and the new one and [b] itself still
    reads the old ones. *)
Lemma WithTag_ok b tag w :
  wfSlice (T:=string) w (tags b) ->
  exists b2 w', ErrorBuilder.WithTag b tag w = Ok (b2, w') /\
    sliceRead (heap w') (tags b2) = sliceRead (heap w) (tags b) ++ [tag] /\
    sliceRead (T:=string) (heap w') (tags b) = sliceRead (heap w) (tags b).
Proof.
  intros Hwf. destruct (append_ok (tags b) tag w Hwf) as (s' & w' & Hrun & Hnew & Hold & _).
  exists (set_tags s' b), w'. split; [|split; assumption].
  unfold ErrorBuilder.WithTag. unfold mbind, M_bind. now rewrite Hrun.
Qed.

(** ** The lazily generated trace *)


(** Over an inner node without a trace every read generates a new
    identifier: the value assigned to the receiver is never read back. *)
Lemma Trace_regenerated a e child w :
  errors_As (err e) = Some child ->
  recursiveAttr None (Some child) trace = None ->
  exists p w', Error.Trace (Some (a, e)) w = Ok ((Some (uuidText (uuids w)), p), w') /\
    exists p' w'', Error.Trace p w' = Ok ((Some (uuidText (S (uuids w))), p'), w'').
Proof.
  intros HAs Hnone. unfold Error.Trace. rewrite recursiveAttr_step, HAs, Hnone.
  run_M. do 2 eexists. split; [reflexivity|].
  rewrite recursiveAttr_step. simpl. rewrite HAs, Hnone.
  do 2 eexists. reflexivity.
Qed.

(** ** [LogValue] *)

(** Whenever the message is inherited from an inner node, [LogValue]
    dereferences the receiver's own nil [message]. *)
Lemma LogValue_inherited_message a e w :
  message e = None -> is_Some (Error.Message (Some (a, e))) ->
  Error.LogValue (Some (a, e)) w = Panic nilDeref.
Proof.
  intros Hown [m Hm]. unfold Error.LogValue. rewrite Hm, Hown. reflexivity.
Qed.

Lemma LogValue_nil w : Error.LogValue None w = Ok ((GroupValue_ [], None), w).
Proof. reflexivity. Qed.

(** ** What a built node gives back *)

Lemma sliceRead_lo_Slice `{Elem T} (h : gmap nat object) (n : nat) (o1 o2 : object) (s : slice) :
  (0 < s_len s -> s_ptr s < n) ->
  sliceRead (T:=T) (<[S n := o2]> (<[n := o1]> h)) (lo_Slice s (s_len s)) = sliceRead h s.
Proof.
  intros Hp. unfold lo_Slice. destruct (s_len s =? 0) eqn:E.
  - apply Nat.eqb_eq in E. rewrite (sliceRead_empty h s E). now apply sliceRead_empty.
  - apply Nat.eqb_neq in E. unfold sliceRead, arrayAt. simpl.
    rewrite !lookup_insert_ne by lia. now rewrite Nat.min_id.
Qed.

(** X11: built by [Error(msg)] from a builder without a cause, a node
    gives back under its accessors what the builder held, [requestID] and
    [time] apart. *)
Lemma Error_reads_back b msg w :
  err b = nil -> wfBuilder w b ->
  exists a e w', ErrorBuilder.Error b msg w = Ok (ErrorPtr a e, w') /\
    let p := Some (a, e) in
    Error.Message p = Some msg /\
    Error.Reason p = reason b /\
    Error.Domain p = domain b /\
    mapRead (heap w') (Error.Metadata p) = mapRead (heap w) (metadata b) /\
    sliceRead (T:=QuotaViolation) (heap w') (Error.QuotaViolations p)
      = sliceRead (heap w) (quotaViolations b) /\
    sliceRead (T:=PreconditionViolation) (heap w') (Error.PreconditionViolations p)
      = sliceRead (heap w) (preconditionViolations b) /\
    sliceRead (T:=FieldViolation) (heap w') (Error.FieldViolations p)
      = sliceRead (heap w) (fieldViolations b) /\
    userID e = userID b /\
    tenantID e = tenantID b /\
    (forall t, trace b = Some t -> Error.Trace p w' = Ok ((Some t, p), w')) /\
    Error.Span p = Ok (span b) /\
    Error.Tags (heap w') p = dedupFirst (sliceRead (heap w) (tags b)) /\
    Error.Help p = help b /\
    Error.Resource p = resource b /\
    sliceRead (T:=Localization) (heap w') (Error.Localizations p)
      = sliceRead (heap w) (localizations b) /\
    Error.Retry p = retry b /\
    Error.RequestID p = Ok None /\
    time e = 0%Z.
Proof.
  intros Hnil [Hmd Hsl].
  repeat match goal with H : Forall _ (_ :: _) |- _ => apply Forall_cons in H; destruct H end.
  unfold ErrorBuilder.Error, ErrorBuilder.deepCopy. rewrite !deepCopyPtr_id. run_M.
  do 3 eexists. split; [reflexivity|]. cbv zeta.
  unfold Error.Message, Error.Reason, Error.Domain, Error.Metadata, Error.QuotaViolations,
    Error.PreconditionViolations, Error.FieldViolations, Error.Trace, Error.Span, Error.Tags,
    Error.Help, Error.Resource, Error.Localizations, Error.Retry, Error.RequestID.
  rewrite recursive_step, !recursiveAttr_step. simpl. rewrite Hnil. simpl.
  rewrite !sliceRead_lo_Slice by assumption.
  repeat split; try reflexivity.
  - rewrite !lookup_insert_eq.
    assert (E : mapRead (<[next w:=MapObj ∅]> (heap w)) (metadata b) = mapRead (heap w) (metadata b)).
    { destruct (metadata b) as [m|] eqn:Em; [|reflexivity]. simpl.
      rewrite lookup_insert_ne; [reflexivity|]. specialize (Hmd m eq_refl). lia. }
    rewrite E. now rewrite !(right_id_L ∅ (∪)).
  - now intros t ->.
  - apply lo_Uniq_dedupFirst.
Qed.

(** * The claims *)




(** C2 (the code departs from it): a setter called on a builder that
    already holds a metadata map writes into that very map, so the
    receiver sees the new entry; and two branches appended to a tag slice
    with spare capacity share its backing array, so the second branch
    overwrites the tag of the first. *)
Theorem WithMetadata_alters_receiver :
  resultValue (metadataBranches exampleWorld) = Some (None, Some "2") /\
  resultValue (tagBranches exampleWorld)
  = Some (["a"; "b"; "c"; "x"], ["a"; "b"; "c"; "y"], ["a"; "b"; "c"]).
Proof. split; vm_compute; reflexivity. Qed.

(** C3 (the code departs from it): on a node that wraps a node of this
    package, [Trace] looks for the trace on the innermost node and stores
    the generated one on the receiver, so two reads in a row return two
    different identifiers and the field of the receiver is assigned twice. *)
Theorem Trace_regenerated_over_inner_node :
  resultValue (traceTwice exampleWorld)
  = Some ((Some "uuid-1", Some "uuid-2"), (Some "uuid-1", Some "uuid-2")).
Proof. vm_compute. reflexivity. Qed.

(** C4 (the code departs from it): [LogValue] on a node without a message
    of its own that wraps a node with one dereferences nil, and so do
    [Span], [RequestID], [Error], [Trace] and [Time] on a nil receiver. *)
Theorem LogValue_panics_on_inherited_message :
  logWrapped exampleWorld = Panic nilDeref /\
  Error.Span None = Panic nilDeref /\
  Error.RequestID None = Panic nilDeref /\
  Error.Error None = Panic nilDeref /\
  Error.Trace None exampleWorld = Panic nilDeref /\
  Error.Time None exampleWorld = Panic nilDeref.
Proof. repeat split; vm_compute; reflexivity. Qed.

(** C5 (the code departs from it): [deepCopy] leaves [requestID] and
    [time] out, so a request identifier set on the builder is absent from
    the built node, and the time read from the node is the time of the
    first read, not of the construction. *)
Theorem requestID_lost_in_deepCopy :
  resultValue (requestIDRoundTrip "req-1" exampleWorld) = Some (Ok None) /\
  resultValue (creationTime 5000 exampleWorld) = Some (1700000000, 1700005000)%Z.
Proof. split; vm_compute; reflexivity. Qed.
(** C6: for every builder and every world, wrapping nil gives nil and
    changes nothing: [Wrap(nil)], [Wrapf(nil, format, args...)] and [Join]
    of errors that are all nil, on a builder and at package level. *)
Theorem wrap_nil_is_nil (b : ErrorBuilder) (w : World) :
  ErrorBuilder.Wrap b nil w = Ok (nil, w) /\
  (forall format args, ErrorBuilder.Wrapf b nil format args w = Ok (nil, w)) /\
  (forall errs, forallb isNil errs = true -> ErrorBuilder.Join b errs w = Ok (nil, w)) /\
  Wrap nil w = Ok (nil, w) /\
  (forall format args, Wrapf nil format args w = Ok (nil, w)) /\
  (forall errs, forallb isNil errs = true -> Join errs w = Ok (nil, w)).
Proof.
  assert (HJ : forall b' w', forall errs, forallb isNil errs = true ->
            ErrorBuilder.Join b' errs w' = Ok (nil, w')).
  { intros b' w' errs H. unfold ErrorBuilder.Join. unfold mbind, M_bind.
    rewrite errors_Join_nil; [reflexivity|].
    apply Forall_forall. intros x Hx. rewrite forallb_forall in H.
    apply list_elem_of_In in Hx. apply H in Hx. now destruct x. }
  repeat split; try reflexivity; auto.
  intros errs H. unfold Join. run_M. now apply HJ.
Qed.

Lemma wrap_nil_is_nil_witness :
  ErrorBuilder.Join exampleBuilder [nil; nil] exampleWorld = Ok (nil, exampleWorld).
Proof.
  apply (wrap_nil_is_nil exampleBuilder exampleWorld). reflexivity.
Defined.



(** C10: [Span] and [RequestID] return the field of the receiving node
    and never look down the chain: on a node whose own field is absent
    the result is absent whatever the cause holds. *)
Theorem Span_RequestID_own_field (a : nat) (e : Error) :
  Error.Span (Some (a, e)) = Ok (span e) /\
  Error.RequestID (Some (a, e)) = Ok (requestID e) /\
  (forall inner, Error.Span (Some (a, set_err inner (set_span None e))) = Ok None) /\
  (forall inner, Error.RequestID (Some (a, set_err inner (set_requestID None e))) = Ok None).
Proof. repeat split. Qed.




(** C9: [Tags] on the outermost node concatenates the tags of every node
    of the chain from the outside in and removes duplicates, keeping every
    first occurrence in place; with [x] on the outer node and [y] on the
    inner one the result is [x; y], also when the inner node sets [x] too. *)
Theorem Tags_outer_to_inner_dedup (h : gmap nat object) (p : PtrError) :
  let all := concat (map (fun e => sliceRead h (tags e)) (chain p)) in
  Error.Tags h p = dedupFirst all /\
  NoDup (Error.Tags h p) /\
  (forall x, x ∈ Error.Tags h p <-> x ∈ all) /\
  resultValue (taggedChain ["x"] ["y"] exampleWorld) = Some ["x"; "y"] /\
  resultValue (taggedChain ["x"] ["x"; "y"] exampleWorld) = Some ["x"; "y"].
Proof.
  cbv zeta.
  assert (E : Error.Tags h p = dedupFirst (concat (map (fun e => sliceRead h (tags e)) (chain p)))).
  { unfold Error.Tags. rewrite recursive_foldl, lo_Uniq_dedupFirst.
    exact (f_equal dedupFirst
             (foldl_app_concat (fun e => sliceRead h (tags e)) (chain p) [])). }
  rewrite E. split; [reflexivity|]. split; [apply dedupFirst_NoDup|].
  split; [intros x; apply dedupFirst_elem|].
  split; vm_compute; reflexivity.
Qed.

(** * Further properties of the code *)

(** ** The terminal operations: text, chain and identity *)

Lemma append_empty_r (s : string) : s +:+ EmptyString = s.
Proof.
  induction s as [|c s IH]; [reflexivity|].
  change (String c (s +:+ EmptyString) = String c s). now rewrite IH.
Qed.

Lemma append_String c (s t : string) : String c s +:+ t = String c (s +:+ t).
Proof. reflexivity. Qed.

Lemma append_assoc (a b c : string) : (a +:+ b) +:+ c = a +:+ (b +:+ c).
Proof.
  induction a as [|x a IH]; [reflexivity|]. rewrite !append_String. now rewrite IH.
Qed.




Lemma chain_cons a e : chain (Some (a, e)) = e :: chain (errors_As (err e)).
Proof.
  rewrite chain_step. destruct (errors_As (err e)) as [c|]; [reflexivity|].
  now simp chain.
Qed.

(** X2: [Wrap(x)] on a non-nil [x] puts exactly one node in front of the
    chain that [recursive] walks: the chain of the result is the new node
    followed by the chain found under [x], also when the node found under
    [x] sits behind a [fmt.Errorf] wrapper. *)
Theorem Wrap_extends_chain (b : ErrorBuilder) (x : error) (w : World) :
  isNil x = false ->
  exists a e w', ErrorBuilder.Wrap b x w = Ok (ErrorPtr a e, w') /\
    chain (Some (a, e)) = e :: chain (errors_As x) /\
    (forall c fa msg, x = wrapError fa msg (toError c) -> chain (Some (a, e)) = e :: chain c).
Proof.
  intros Hx. destruct (Wrap_ok b x w Hx) as (a & e & w' & Hrun & Herr & _).
  exists a, e, w'. split; [exact Hrun|]. rewrite chain_cons, Herr. split; [reflexivity|].
  intros c fa msg ->. simpl. destruct c as [[ca ce]|]; reflexivity.
Qed.

Lemma Wrap_extends_chain_witness :
  exists a e w', ErrorBuilder.Wrap exampleBuilder sentinel exampleWorld = Ok (ErrorPtr a e, w') /\
    chain (Some (a, e)) = e :: chain (errors_As sentinel).
Proof.
  destruct (Wrap_extends_chain exampleBuilder sentinel exampleWorld eq_refl)
    as (a & e & w' & Hrun & Hc & _).
  exists a, e, w'. split; [exact Hrun|exact Hc].
Defined.




Lemma errors_Join_kept errs w x :
  x ∈ errs -> isNil x = false ->
  exists a w', errors_Join errs w = Ok (joinError a (filter (fun e => isNil e = false) errs), w').
Proof.
  intros Hin Hx. unfold errors_Join.
  assert (Hk : x ∈ filter (fun e => isNil e = false) errs) by (apply list_elem_of_filter; auto).
  destruct (filter (fun e => isNil e = false) errs) as [|k kept] eqn:E; [inversion Hk|].
  simpl. unfold mbind, M_bind, newAddr, mret, M_ret. eauto.
Qed.

(** X4: [Join(errs...)] on a builder without a message, with at least
    one non-nil error among [errs]: the text of the node is the texts of
    the non-nil errors, one per line, and whatever one of these errors
    matches under [errors.Is], the node matches. *)
Theorem Join_text_and_matches (b : ErrorBuilder) (errs : list error) (x : error) (w : World) :
  message b = None -> x ∈ errs -> isNil x = false ->
  exists a e w', ErrorBuilder.Join b errs w = Ok (ErrorPtr a e, w') /\
    Error.Error (Some (a, e))
    = Ok (strings_Join (map error_Error (filter (fun y => isNil y = false) errs)) nl) /\
    forall t, isNil t = false -> errors_Is x t = true -> errors_Is (ErrorPtr a e) t = true.
Proof.
  intros Hm Hin Hx.
  destruct (errors_Join_kept errs w x Hin Hx) as (ja & w1 & Hj).
  set (kept := filter (fun y => isNil y = false) errs) in *.
  destruct (Wrap_ok b (joinError ja kept) w1 eq_refl) as (a & e & w' & Hrun & Herr & Hmsg & _).
  exists a, e, w'. split; [|split].
  - unfold ErrorBuilder.Join. unfold mbind at 1, M_bind at 1. now rewrite Hj.
  - unfold Error.Error. cbn [error_Error]. rewrite Hmsg, Hm, Herr. reflexivity.
  - intros t Ht HIs. apply errors_Is_cause; [exact Ht|]. rewrite Herr.
    cbn [errors_is]. apply orb_true_iff. right. apply existsb_exists. exists x. split.
    + apply list_elem_of_In, list_elem_of_filter. auto.
    + unfold errors_Is in HIs. now rewrite Hx, Ht in HIs.
Qed.

Lemma Join_text_and_matches_witness :
  exists a e w',
    ErrorBuilder.Join exampleBuilder [errorString 1 "other"; nil; sentinel] exampleWorld
      = Ok (ErrorPtr a e, w') /\
    Error.Error (Some (a, e)) = Ok (("other" +:+ nl) +:+ "file already exists") /\
    errors_Is (ErrorPtr a e) sentinel = true.
Proof.
  destruct (Join_text_and_matches exampleBuilder [errorString 1 "other"; nil; sentinel] sentinel
              exampleWorld eq_refl) as (a & e & w' & Hrun & Htxt & H).
  - right. right. left.
  - reflexivity.
  - exists a, e, w'. split; [exact Hrun|]. split; [exact Htxt|].
    apply H; reflexivity.
Defined.

(** X5: the span of a built node.  [Wrap] keeps the span of the builder
    and, when the builder has none, generates one from the next
    identifier; [Error] and [Errorf] keep what the builder has, also when
    that is nothing. *)
Theorem span_after_build (b : ErrorBuilder) (w : World) :
  (forall x, isNil x = false ->
     exists a e w', ErrorBuilder.Wrap b x w = Ok (ErrorPtr a e, w') /\
       Error.Span (Some (a, e)) = Ok (Some (default (uuidText (uuids w)) (span b)))) /\
  (forall msg,
     exists a e w', ErrorBuilder.Error b msg w = Ok (ErrorPtr a e, w') /\
       Error.Span (Some (a, e)) = Ok (span b)) /\
  (forall format args,
     exists a e w', ErrorBuilder.Errorf b format args w = Ok (ErrorPtr a e, w') /\
       Error.Span (Some (a, e)) = Ok (span b)).
Proof.
  repeat split.
  - intros x Hx. destruct (Wrap_ok b x w Hx) as (a & e & w' & Hrun & _ & _ & _ & Hsp & _).
    exists a, e, w'. split; [exact Hrun|]. simpl. now rewrite Hsp.
  - intros msg. destruct (Error_ok b msg w) as (a & e & w' & Hrun & _ & _ & Hsp & _).
    exists a, e, w'. split; [exact Hrun|]. simpl. now rewrite Hsp.
  - intros format args.
    destruct (Errorf_ok b format args w) as (a & e & f & w' & Hrun & _ & _ & _ & _ & _ & Hsp & _).
    exists a, e, w'. split; [exact Hrun|]. simpl. now rewrite Hsp.
Qed.

(** ** [errors.Is] over nodes of this package *)

Lemma unwraps_nil y : unwraps nil y -> y = nil.
Proof. inversion 1; reflexivity. Qed.

Lemma error_eqb_nil_l t : isNil t = false -> error_eqb nil t = false.
Proof. now destruct t. Qed.

Lemma errors_is_complete x y :
  unwraps x y -> forall t, isNil t = false -> error_eqb y t = true -> errors_is x t = true.
Proof.
  induction 1 as [x|a msg e y Hu IH|a msg errs e y Hin Hu IH|a errs e y Hin Hu IH|a e y Hu IH];
    intros t Ht Heq.
  - now apply errors_is_refl.
  - cbn [errors_is]. destruct (isNil e) eqn:En.
    + destruct e; try discriminate. apply unwraps_nil in Hu. subst y.
      rewrite error_eqb_nil_l in Heq by exact Ht. discriminate.
    + rewrite (IH t Ht Heq). apply orb_true_r.
  - cbn [errors_is]. apply orb_true_iff. right. apply existsb_exists.
    exists e. split; [now apply list_elem_of_In | now apply IH].
  - cbn [errors_is]. apply orb_true_iff. right. apply existsb_exists.
    exists e. split; [now apply list_elem_of_In | now apply IH].
  - rewrite errors_is_ErrorPtr, Ht, orb_false_r. destruct (isNil (err e)) eqn:En.
    + destruct (err e); try discriminate. apply unwraps_nil in Hu. subst y.
      rewrite error_eqb_nil_l in Heq by exact Ht. discriminate.
    + rewrite (IH t Ht Heq). simpl. apply orb_true_r.
Qed.

Lemma errors_is_sound_aux n : forall x t,
  esize x <= n -> errors_is x t = true -> exists y, unwraps x y /\ error_eqb y t = true.
Proof.
  induction n as [|n IH]; intros x t Hn H.
  - destruct x; simpl in Hn; try lia. exists nil. split; [constructor|].
    simpl in H. now rewrite orb_false_r in H.
  - destruct x; cbn [errors_is] in H.
    + exists nil. split; [constructor|]. now rewrite orb_false_r in H.
    + exists (errorString a s). split; [constructor|]. now rewrite orb_false_r in H.
    + apply orb_true_iff in H. destruct H as [H|H].
      * eexists. split; [constructor|exact H].
      * destruct (isNil x); [discriminate|]. simpl in Hn.
        destruct (IH x t ltac:(lia) H) as (y & Hy & He).
        exists y. split; [now constructor|exact He].
    + apply orb_true_iff in H. destruct H as [H|H].
      * eexists. split; [constructor|exact H].
      * apply existsb_exists in H. destruct H as (e & Hin & He).
        assert (Hs : esize e <= n).
        { simpl in Hn. clear -Hin Hn. induction errs as [|z errs IHe]; [inversion Hin|].
          simpl in *. destruct Hin as [->|Hin]; [lia|]. apply IHe; [lia|exact Hin]. }
        destruct (IH e t Hs He) as (y & Hy & Hyt).
        exists y. split; [|exact Hyt]. eapply unwraps_wrapErrors; [|exact Hy].
        now apply list_elem_of_In.
    + apply orb_true_iff in H. destruct H as [H|H].
      * eexists. split; [constructor|exact H].
      * apply existsb_exists in H. destruct H as (e & Hin & He).
        assert (Hs : esize e <= n).
        { simpl in Hn. clear -Hin Hn. induction errs as [|z errs IHe]; [inversion Hin|].
          simpl in *. destruct Hin as [->|Hin]; [lia|]. apply IHe; [lia|exact Hin]. }
        destruct (IH e t Hs He) as (y & Hy & Hyt).
        exists y. split; [|exact Hyt]. eapply unwraps_joinError; [|exact Hy].
        now apply list_elem_of_In.
    + simpl in Hn.
      assert (Hc : error_eqb (ErrorPtr a e) t = true \/
                   (error_eqb (err e) t = true) \/ errors_is (err e) t = true).
      { repeat (apply orb_true_iff in H; destruct H as [H|H]); auto.
        - destruct (isNil (err e) || isNil t); auto.
        - destruct (isNil (err e)); [discriminate|auto]. }
      destruct Hc as [Hc|[Hc|Hc]].
      * eexists. split; [constructor|exact Hc].
      * exists (err e). split; [constructor; constructor|exact Hc].
      * destruct (IH (err e) t ltac:(lia) Hc) as (y & Hy & Hyt).
        exists y. split; [now constructor|exact Hyt].
Qed.

(** X6: the [Is] and [Unwrap] methods of the node add nothing to and take
    nothing from the walk of [errors.Is]: for non-nil [x] and [t],
    [errors.Is(x, t)] holds exactly when some error met on the [Unwrap]
    tree of [x], nodes of this package included, is equal to [t]. *)
Theorem errors_Is_iff_unwraps (x t : error) :
  isNil x = false -> isNil t = false ->
  (errors_Is x t = true <-> exists y, unwraps x y /\ error_eqb y t = true).
Proof.
  intros Hx Ht. unfold errors_Is. rewrite Hx, Ht. simpl. split.
  - apply (errors_is_sound_aux (esize x)). lia.
  - intros (y & Hy & He). eapply errors_is_complete; eauto.
Qed.

Lemma errors_Is_iff_unwraps_witness :
  errors_Is (ErrorPtr 7 (set_err (wrapError 5 "ctx" sentinel) exampleBuilder)) sentinel = true <->
  exists y, unwraps (ErrorPtr 7 (set_err (wrapError 5 "ctx" sentinel) exampleBuilder)) y /\
            error_eqb y sentinel = true.
Proof.
  exact (errors_Is_iff_unwraps
           (ErrorPtr 7 (set_err (wrapError 5 "ctx" sentinel) exampleBuilder)) sentinel
           eq_refl eq_refl).
Defined.

(** ** The setters *)

(** X7: [WithMetadata(key, value)] always returns, and the map of the
    returned builder is the map of the receiver with [key] bound to
    [value]: the key reads back and every other key reads as before. *)
Theorem WithMetadata_inserts (b : ErrorBuilder) (key value : string) (w : World) :
  exists b2 w', ErrorBuilder.WithMetadata b key value w = Ok (b2, w') /\
    mapRead (heap w') (metadata b2) = <[key := value]> (mapRead (heap w) (metadata b)) /\
    mapRead (heap w') (metadata b2) !! key = Some value /\
    (forall k, k <> key ->
       mapRead (heap w') (metadata b2) !! k = mapRead (heap w) (metadata b) !! k).
Proof.
  assert (H : exists b2 w', ErrorBuilder.WithMetadata b key value w = Ok (b2, w') /\
    mapRead (heap w') (metadata b2) = <[key := value]> (mapRead (heap w) (metadata b))).
  { destruct (metadata b) as [a|] eqn:Hm.
    - destruct (WithMetadata_shared b key value w a Hm) as (w' & Hrun & Hmap).
      exists b, w'. now rewrite Hm in *.
    - destruct (WithMetadata_fresh b key value w Hm) as (w' & Hrun & Hnew & _).
      exists (set_metadata (Some (next w)) b), w'. split; [exact Hrun|].
      cbn [metadata set_metadata]. rewrite Hnew. cbn [mapRead]. now rewrite insert_empty. }
  destruct H as (b2 & w' & Hrun & Hmap). exists b2, w'. split; [exact Hrun|].
  split; [exact Hmap|]. rewrite Hmap. split.
  - apply lookup_insert_eq.
  - intros k Hk. now apply lookup_insert_ne.
Qed.

(** X8: [WithQuotaViolation], [WithPreconditionViolation],
    [WithFieldViolation] and [WithLocalization] on a builder whose slice
    is well formed: the returned builder reads the old elements followed
    by the new one, the receiver still reads the old elements, and
    [WithPreconditionViolation] leaves the type of the violation empty. *)
Theorem appending_setters (b : ErrorBuilder) (w : World) :
  (forall subject description,
     wfSlice (T:=QuotaViolation) w (quotaViolations b) ->
     exists b2 w', ErrorBuilder.WithQuotaViolation b subject description w = Ok (b2, w') /\
       sliceRead (heap w') (quotaViolations b2)
       = sliceRead (heap w) (quotaViolations b) ++ [mkQuotaViolation subject description] /\
       sliceRead (T:=QuotaViolation) (heap w') (quotaViolations b)
       = sliceRead (heap w) (quotaViolations b)) /\
  (forall subject description,
     wfSlice (T:=PreconditionViolation) w (preconditionViolations b) ->
     exists b2 w', ErrorBuilder.WithPreconditionViolation b subject description w = Ok (b2, w') /\
       sliceRead (heap w') (preconditionViolations b2)
       = sliceRead (heap w) (preconditionViolations b)
         ++ [mkPreconditionViolation EmptyString subject description] /\
       sliceRead (T:=PreconditionViolation) (heap w') (preconditionViolations b)
       = sliceRead (heap w) (preconditionViolations b)) /\
  (forall field description,
     wfSlice (T:=FieldViolation) w (fieldViolations b) ->
     exists b2 w', ErrorBuilder.WithFieldViolation b field description w = Ok (b2, w') /\
       sliceRead (heap w') (fieldViolations b2)
       = sliceRead (heap w) (fieldViolations b) ++ [mkFieldViolation field description] /\
       sliceRead (T:=FieldViolation) (heap w') (fieldViolations b)
       = sliceRead (heap w) (fieldViolations b)) /\
  (forall localization,
     wfSlice (T:=Localization) w (localizations b) ->
     exists b2 w', ErrorBuilder.WithLocalization b localization w = Ok (b2, w') /\
       sliceRead (heap w') (localizations b2)
       = sliceRead (heap w) (localizations b) ++ [localization] /\
       sliceRead (T:=Localization) (heap w') (localizations b)
       = sliceRead (heap w) (localizations b)).
Proof.
  repeat split.
  - intros subject description Hwf.
    destruct (append_ok (quotaViolations b) (mkQuotaViolation subject description) w Hwf)
      as (s' & w' & Hrun & Hnew & Hold & _).
    exists (set_quotaViolations s' b), w'. split; [|split; assumption].
    unfold ErrorBuilder.WithQuotaViolation. unfold mbind, M_bind. now rewrite Hrun.
  - intros subject description Hwf.
    destruct (append_ok (preconditionViolations b)
                (mkPreconditionViolation EmptyString subject description) w Hwf)
      as (s' & w' & Hrun & Hnew & Hold & _).
    exists (set_preconditionViolations s' b), w'. split; [|split; assumption].
    unfold ErrorBuilder.WithPreconditionViolation. unfold mbind, M_bind. now rewrite Hrun.
  - intros field description Hwf.
    destruct (append_ok (fieldViolations b) (mkFieldViolation field description) w Hwf)
      as (s' & w' & Hrun & Hnew & Hold & _).
    exists (set_fieldViolations s' b), w'. split; [|split; assumption].
    unfold ErrorBuilder.WithFieldViolation. unfold mbind, M_bind. now rewrite Hrun.
  - intros localization Hwf.
    destruct (append_ok (localizations b) localization w Hwf)
      as (s' & w' & Hrun & Hnew & Hold & _).
    exists (set_localizations s' b), w'. split; [|split; assumption].
    unfold ErrorBuilder.WithLocalization. unfold mbind, M_bind. now rewrite Hrun.
Qed.

Lemma appending_setters_witness :
  exists b2 w',
    ErrorBuilder.WithFieldViolation exampleBuilder "email" "must not be empty" exampleWorld
      = Ok (b2, w') /\
    sliceRead (heap w') (fieldViolations b2)
    = sliceRead (heap exampleWorld) (fieldViolations exampleBuilder)
      ++ [mkFieldViolation "email" "must not be empty"].
Proof.
  destruct (appending_setters exampleBuilder exampleWorld) as (_ & _ & H & _).
  destruct (H "email" "must not be empty" (nilSlice_wf exampleWorld)) as (b2 & w' & Hrun & Hnew & _).
  exists b2, w'. split; [exact Hrun|exact Hnew].
Defined.

Lemma WithTag_ok_witness :
  exists b2 w', ErrorBuilder.WithTag exampleBuilder "auth" exampleWorld = Ok (b2, w') /\
    sliceRead (heap w') (tags b2) = sliceRead (heap exampleWorld) (tags exampleBuilder) ++ ["auth"] /\
    sliceRead (T:=string) (heap w') (tags exampleBuilder)
    = sliceRead (heap exampleWorld) (tags exampleBuilder).
Proof. exact (WithTag_ok exampleBuilder "auth" exampleWorld (nilSlice_wf exampleWorld)). Defined.



(** ** Reading a node back *)

Lemma Error_reads_back_witness :
  exists a e w', ErrorBuilder.Error exampleBuilder "boom" exampleWorld = Ok (ErrorPtr a e, w') /\
    Error.Message (Some (a, e)) = Some "boom" /\
    Error.RequestID (Some (a, e)) = Ok None.
Proof.
  assert (Hwf : wfBuilder exampleWorld exampleBuilder).
  { split; [intros a [=]|]. repeat constructor; simpl; lia. }
  destruct (Error_reads_back exampleBuilder "boom" exampleWorld eq_refl Hwf)
    as (a & e & w' & Hrun & H).
  exists a, e, w'. split; [exact Hrun|]. cbv zeta in H. split; [apply H|apply H].
Defined.


(** X13: on a node that is the innermost of its chain, [Time] returns the
    time of the node, or the clock when the node has none, and stores it;
    unless that value is the zero time, every later read returns it again
    however far the clock has advanced. *)
Theorem Time_kept_on_innermost (a : nat) (e : Error) (w : World) :
  errors_As (err e) = None ->
  (time e <> 0 \/ now w <> 0)%Z ->
  exists t p w', Error.Time (Some (a, e)) w = Ok ((t, p), w') /\
    t = (if IsZero (time e) then now w else time e) /\
    forall d, Error.Time p (elapse d w') = Ok ((t, p), elapse d w').
Proof.
  intros HAs Hnz. unfold Error.Time. rewrite recursiveAttr_step, HAs.
  destruct (IsZero (time e)) eqn:Hz.
  - unfold mbind, M_bind, time_Now, mret, M_ret.
    do 3 eexists. split; [reflexivity|]. split; [reflexivity|].
    intros d. rewrite recursiveAttr_step. simpl. rewrite HAs. simpl.
    unfold IsZero in *. apply Z.eqb_eq in Hz.
    destruct (now w =? 0)%Z eqn:Hn; [apply Z.eqb_eq in Hn; lia|reflexivity].
  - do 3 eexists. split; [reflexivity|]. split; [reflexivity|].
    intros d. now rewrite recursiveAttr_step, HAs, Hz.
Qed.

Lemma Time_kept_on_innermost_witness :
  exists t p w', Error.Time (Some (0, exampleBuilder)) exampleWorld = Ok ((t, p), w') /\
    t = 1700000000%Z /\
    forall d, Error.Time p (elapse d w') = Ok ((t, p), elapse d w').
Proof.
  apply (Time_kept_on_innermost 0 exampleBuilder exampleWorld eq_refl).
  left. discriminate.
Defined.

(** ** When [LogValue] returns *)

Lemma okAt_ret {A} (a : A) w : okAt (mret a) w.
Proof. now exists a, w. Qed.

Lemma okAt_bind {A B} (c : M A) (f : A -> M B) w a w1 :
  c w = Ok (a, w1) -> okAt (f a) w1 -> okAt (c ≫= f) w.
Proof.
  intros Hc (b & w2 & Hf). exists b, w2. unfold mbind, M_bind. now rewrite Hc.
Qed.

Ltac enter_let :=
  lazymatch goal with
  | |- okAt (let x := ?v in @?k x) ?w =>
      let y := fresh x in pose (y := v); change (okAt (k y) w); cbv beta; clearbody y
  end.

Lemma Trace_total a e w :
  exists t e' w', Error.Trace (Some (a, e)) w = Ok ((Some t, Some (a, e')), w').
Proof.
  unfold Error.Trace. destruct (recursiveAttr None (Some (a, e)) trace) as [t|].
  - exists t, e, w. reflexivity.
  - unfold mbind, M_bind, uuid_NewString, mret, M_ret. do 3 eexists. reflexivity.
Qed.

Lemma Time_total a e w :
  exists t e' w', Error.Time (Some (a, e)) w = Ok ((t, Some (a, e')), w').
Proof.
  unfold Error.Time. destruct (IsZero (recursiveAttr 0%Z (Some (a, e)) time)).
  - unfold mbind, M_bind, time_Now, mret, M_ret. do 3 eexists. reflexivity.
  - do 3 eexists. reflexivity.
Qed.

Lemma LogValue_returns a e w :
  (message e = None -> Error.Message (Some (a, e)) = None) ->
  okAt (Error.LogValue (Some (a, e))) w.
Proof.
  intros Hsafe. cbv beta iota delta [Error.LogValue].
  enter_let.
  assert (H1 : exists attrs1,
             match Error.Message (Some (a, e)) with
             | Some _ =>
                 match message e with
                 | Some m => mret (attrs ++ [("message", StringValue m)])
                 | None => panic nilDeref
                 end
             | None => mret attrs
             end w = Ok (attrs1, w)).
  { destruct (Error.Message (Some (a, e))) as [m|] eqn:Hm.
    - destruct (message e) as [own|] eqn:Hown; [eexists; reflexivity|].
      specialize (Hsafe eq_refl). discriminate.
    - eexists; reflexivity. }
  destruct H1 as (attrs1 & H1).
  eapply okAt_bind; [exact H1|]. cbv beta. repeat enter_let.
  eapply okAt_bind; [reflexivity|]. cbv beta. repeat enter_let.
  destruct (Trace_total a e w) as (t & e1 & w1 & Ht).
  eapply okAt_bind; [exact Ht|]. cbv beta iota. repeat enter_let.
  eapply okAt_bind; [reflexivity|]. cbv beta. repeat enter_let.
  eapply okAt_bind; [reflexivity|]. cbv beta. repeat enter_let.
  eapply okAt_bind; [reflexivity|]. cbv beta. repeat enter_let.
  destruct (Time_total a e1 w1) as (tm & e2 & w2 & Htm).
  eapply okAt_bind; [exact Htm|]. cbv beta iota. repeat enter_let.
  eapply okAt_bind; [reflexivity|]. cbv beta. repeat enter_let.
  apply okAt_ret.
Qed.

(** X14: [LogValue] on a non-nil node panics in exactly one case: the
    node has no message of its own and the chain below it resolves one.
    In every other case it returns. *)
Theorem LogValue_panics_iff (a : nat) (e : Error) (w : World) :
  (exists why, Error.LogValue (Some (a, e)) w = Panic why) <->
  (message e = None /\ is_Some (Error.Message (Some (a, e)))).
Proof.
  split.
  - intros [why H].
    destruct (message e) as [own|] eqn:Hown.
    + destruct (LogValue_returns a e w) as (r & w' & Hr); [rewrite Hown; discriminate|].
      pose proof (eq_trans (eq_sym Hr) H) as Hc. discriminate Hc.
    + split; [reflexivity|].
      destruct (Error.Message (Some (a, e))) as [m|] eqn:Hm; [eauto|].
      destruct (LogValue_returns a e w) as (r & w' & Hr); [intros _; exact Hm|].
      pose proof (eq_trans (eq_sym Hr) H) as Hc. discriminate Hc.
  - intros [Hown Hm]. exists nilDeref. now apply LogValue_inherited_message.
Qed.

(** ** The verbose format *)

Lemma appends_ret {A} (Q : A -> Prop) (a : A) : Q a -> appends Q (mret a).
Proof.
  intros HQ sb w. exists a, EmptyString, w. split; [|exact HQ].
  now rewrite append_empty_r.
Qed.

Lemma appends_bind {A B} (Q : A -> Prop) (R : B -> Prop) (c : SB A) (f : A -> SB B) :
  appends Q c -> (forall a, Q a -> appends R (f a)) -> appends R (c ≫= f).
Proof.
  intros Hc Hf sb w.
  destruct (Hc sb w) as (a & r1 & w1 & H1 & Ha).
  destruct (Hf a Ha (sb +:+ r1) w1) as (b & r2 & w2 & H2 & Hb).
  exists b, (r1 +:+ r2), w2. split; [|exact Hb].
  unfold mbind, SB_bind, mbind, M_bind. rewrite H1. cbn [fst snd].
  rewrite H2. now rewrite append_assoc.
Qed.

Lemma appends_WriteString (s : string) : appends (fun _ => True) (WriteString s).
Proof. intros sb w. exists tt, s, w. split; [reflexivity|exact I]. Qed.

Lemma appends_call {A} (Q : A -> Prop) (c : M A) :
  (forall w, exists a w', c w = Ok (a, w') /\ Q a) -> appends Q (call c).
Proof.
  intros Hc sb w. destruct (Hc w) as (a & w' & H & Ha).
  exists a, EmptyString, w'. split; [|exact Ha].
  unfold call, mbind, M_bind. rewrite H. now rewrite append_empty_r.
Qed.

Lemma appends_forRange {A} (l : list A) (body : A -> SB unit) :
  (forall x, appends (fun _ => True) (body x)) -> appends (fun _ => True) (forRange l body).
Proof.
  intros Hb. induction l as [|x l IH]; cbn [forRange].
  - now apply appends_ret.
  - eapply appends_bind; [apply Hb|]. intros _ _. exact IH.
Qed.

Lemma appends_header {A} (Q : A -> Prop) (s : string) (c : M string) (text : string)
    (tail : SB A) :
  (forall w, c w = Ok (text, w)) ->
  appends Q tail ->
  forall w, exists a rest w',
    (WriteString s;; t ← call c; WriteString t;; WriteString nl;; tail) EmptyString w
      = Ok ((a, ((s +:+ text) +:+ nl) +:+ rest), w') /\ Q a.
Proof.
  intros Hc Htail w.
  destruct (Htail ((s +:+ text) +:+ nl) w) as (a & rest & w' & H & Ha).
  exists a, rest, w'. split; [|exact Ha].
  unfold mbind, SB_bind, WriteString, call, mret, M_ret.
  unfold mbind, M_bind. cbn [fst snd]. rewrite Hc. exact H.
Qed.

Ltac appends_step :=
  lazymatch goal with
  | |- appends _ (WriteString _) => apply appends_WriteString
  | |- appends _ printTab => apply appends_WriteString
  | |- appends _ (mret _) => apply appends_ret; exact I
  | |- appends _ (forRange _ _) => apply appends_forRange; intros ?
  | |- appends _ (call getWorld) =>
      apply (appends_call (fun _ => True)); intros ?; do 2 eexists; split; [reflexivity|exact I]
  | |- appends _ (call (liftR _)) =>
      apply (appends_call (fun _ => True)); intros ?; do 2 eexists; split; [reflexivity|exact I]
  | |- appends _ (match ?x with _ => _ end) => destruct x
  | |- appends _ (call (Error.Trace (Some (?a, ?e))) ≫= _) =>
      apply (appends_bind (fun r => exists t e', r = (Some t, Some (a, e'))));
      [ apply appends_call; intros w0;
        destruct (Trace_total a e w0) as (t & e' & w' & Ht);
        exists (Some t, Some (a, e')), w'; split; [exact Ht|]; now exists t, e'
      | intros ? (? & ? & ->); cbn [fst snd] ]
  | |- appends _ (call (Error.Time (Some (?a, ?e))) ≫= _) =>
      apply (appends_bind (fun r => exists t e', r = (t, Some (a, e'))));
      [ apply appends_call; intros w0;
        destruct (Time_total a e w0) as (t & e' & w' & Ht);
        exists (t, Some (a, e')), w'; split; [exact Ht|]; now exists t, e'
      | intros ? (? & ? & ->); cbn [fst snd] ]
  | |- appends _ (_ ≫= _) => eapply appends_bind; [|intros ? ?; cbv beta]
  end.

(** X15: on a non-nil node [formatVerbose] always returns, and its text
    begins with the line made of [Error: ] and the text of [Error()];
    [Format] prints that text for the verb [v] with the plus flag and the
    text of [Error()] alone for every other verb or without the flag,
    leaving the node as it is. *)
Theorem formatVerbose_returns (timeString : Z -> string) (a : nat) (e : Error) (w : World) :
  exists rest p' w',
    formatVerbose timeString (Some (a, e)) w
      = Ok (((("Error: " +:+ error_Error (ErrorPtr a e)) +:+ nl) +:+ rest, p'), w') /\
    Format timeString (Some (a, e)) true "v" w = formatVerbose timeString (Some (a, e)) w /\
    forall plus verb, plus = false \/ verb <> "v"%char ->
      Format timeString (Some (a, e)) plus verb w
        = Ok ((error_Error (ErrorPtr a e), Some (a, e)), w).
Proof.
  assert (H : exists p' rest w',
             formatVerbose timeString (Some (a, e)) w
             = Ok (((("Error: " +:+ error_Error (ErrorPtr a e)) +:+ nl) +:+ rest, p'), w')).
  { cbv beta iota zeta delta [formatVerbose].
    match goal with
    | |- context [mbind _ (?body EmptyString)] =>
        assert (Hb : exists p' rest w',
                   body EmptyString w
                   = Ok ((p', (("Error: " +:+ error_Error (ErrorPtr a e)) +:+ nl) +:+ rest), w')
                   /\ True)
    end.
    { eapply appends_header; [intros ?; reflexivity|].
      repeat appends_step. }
    destruct Hb as (p' & rest & w' & Hb & _). exists p', rest, w'.
    unfold mbind at 1, M_bind at 1. rewrite Hb. reflexivity. }
  destruct H as (p' & rest & w' & H). exists rest, p', w'.
  split; [exact H|]. split.
  - unfold Format. now rewrite bool_decide_eq_true_2.
  - intros plus verb [-> | Hv]; unfold Format.
    + now rewrite andb_false_r.
    + now rewrite bool_decide_eq_false_2.
Qed.

(** ** Capturing the stack *)

Lemma captureFrames_acc goroot pkg cs : forall frames,
  captureFrames goroot pkg cs frames
  = if StackTraceMaxDepth <=? length frames then frames
    else frames ++ take (StackTraceMaxDepth - length frames) (retainedFrames goroot pkg cs).
Proof.
  induction cs as [|c rest IH]; intros frames.
  - cbn [captureFrames]. destruct (StackTraceMaxDepth <=? length frames); [reflexivity|].
    unfold retainedFrames. cbn [withFunction]. rewrite filter_nil. cbn [map].
    rewrite take_nil. now rewrite app_nil_r.
  - cbn [captureFrames]. destruct (StackTraceMaxDepth <=? length frames) eqn:Hd; [reflexivity|].
    apply Nat.leb_gt in Hd. unfold retainedFrames. cbn [withFunction].
    destruct (c_func c) as [fn|] eqn:Hf.
    + cbv zeta.
      match goal with |- (if ?b then _ else _) = _ => change b with (retained goroot pkg c) end.
      destruct (retained goroot pkg c) eqn:Hr.
      * rewrite IH. rewrite length_app. cbn [length].
        rewrite filter_cons_True by exact Hr. cbn [map].
        destruct (StackTraceMaxDepth <=? length frames + 1) eqn:Hd2.
        -- apply Nat.leb_le in Hd2.
           replace (StackTraceMaxDepth - length frames) with 1 by lia. reflexivity.
        -- apply Nat.leb_gt in Hd2.
           replace (StackTraceMaxDepth - length frames)
             with (S (StackTraceMaxDepth - (length frames + 1))) by lia.
           cbn [take]. now rewrite <- app_assoc.
      * rewrite IH. apply Nat.leb_gt in Hd. rewrite Hd.
        rewrite filter_cons_False by (cbn [fst]; rewrite Hr; discriminate). reflexivity.
    + rewrite filter_nil. cbn [map]. rewrite take_nil. now rewrite app_nil_r.
Qed.

(** X16: [newStacktrace] returns the frames that pass its test, in the
    order of the callers, up to the first caller without a function and
    at most [StackTraceMaxDepth] of them; every frame it returns carries
    the function, file and line of a caller that passes the test. *)
Theorem newStacktrace_frames (w : World) :
  exists st, newStacktrace w = Ok (st, w) /\
    st = take StackTraceMaxDepth (retainedFrames (GOROOT w) (packageName w) (callers w)) /\
    length st <= StackTraceMaxDepth /\
    (forall f, f ∈ st ->
       exists c, c ∈ callers w /\ retained (GOROOT w) (packageName w) c = true /\
         c_func c = Some (function f) /\ file f = c_file c /\ line f = c_line c).
Proof.
  unfold newStacktrace. eexists. split; [reflexivity|].
  rewrite captureFrames_acc. cbn [length].
  change (StackTraceMaxDepth <=? 0) with false. cbn [app]. rewrite Nat.sub_0_r.
  split; [reflexivity|]. split.
  - rewrite length_take. unfold StackTraceMaxDepth. lia.
  - intros f Hf. apply elem_of_take in Hf. destruct Hf as (i & Hf & _).
    apply list_elem_of_lookup_2 in Hf. unfold retainedFrames in Hf.
    apply list_elem_of_fmap in Hf. destruct Hf as ([c fn] & -> & Hin).
    apply list_elem_of_filter in Hin. destruct Hin as [Hr Hin]. simpl in *.
    exists c. split; [|split; [exact Hr|]].
    + clear -Hin. induction (callers w) as [|c' cs IH]; simpl in Hin; [inversion Hin|].
      destruct (c_func c'); [|inversion Hin].
      apply elem_of_cons in Hin. destruct Hin as [[= -> ->]|Hin]; [left|right; auto].
    + split; [|split; reflexivity].
      clear -Hin. induction (callers w) as [|c' cs IH]; simpl in Hin; [inversion Hin|].
      destruct (c_func c') eqn:E; [|inversion Hin].
      apply elem_of_cons in Hin. destruct Hin as [[= -> ->]|Hin]; [exact E|auto].
Qed.

(** X17: when every caller has a function and passes the test and there
    are no more than [StackTraceMaxDepth] of them, [newStacktrace] returns
    one frame per caller, in order, each with the function, file and line
    of its caller. *)
Theorem newStacktrace_keeps_all (w : World) (fns : list string) :
  map c_func (callers w) = map Some fns ->
  forallb (retained (GOROOT w) (packageName w)) (callers w) = true ->
  length (callers w) <= StackTraceMaxDepth ->
  exists st, newStacktrace w = Ok (st, w) /\
    map function st = fns /\ length st = length (callers w) /\
    map file st = map c_file (callers w) /\ map line st = map c_line (callers w).
Proof.
  intros Hf Hr Hlen. unfold newStacktrace. eexists. split; [reflexivity|].
  rewrite captureFrames_acc. cbn [length].
  change (StackTraceMaxDepth <=? 0) with false. cbn [app]. rewrite Nat.sub_0_r.
  assert (E : retainedFrames (GOROOT w) (packageName w) (callers w)
              = map (fun cf => mkFrame (c_pc cf.1) (c_file cf.1) cf.2 (c_line cf.1))
                    (zip (callers w) fns)).
  { unfold retainedFrames. f_equal. revert fns Hf Hr. clear Hlen.
    induction (callers w) as [|c cs IH]; intros fns Hf Hr; [reflexivity|].
    destruct fns as [|fn fns]; [discriminate|]. simpl in Hf. injection Hf as Hc Hf.
    simpl in Hr. apply andb_true_iff in Hr. destruct Hr as [Hr1 Hr2].
    simpl. rewrite Hc. rewrite filter_cons_True by exact Hr1. f_equal. now apply IH. }
  rewrite E.
  assert (Hl : length fns = length (callers w)).
  { apply (f_equal length) in Hf. now rewrite !length_map in Hf. }
  rewrite take_ge by (rewrite length_map, length_zip; lia).
  rewrite !map_map. simpl.
  repeat split.
  - change (map (fun x : callerFrame * string => x.2) (zip (callers w) fns)) with (snd <$> zip (callers w) fns).
    apply snd_zip. lia.
  - rewrite length_map, length_zip. lia.
  - change (map (fun x : callerFrame * string => c_file x.1) (zip (callers w) fns))
      with (map (fun x : callerFrame * string => c_file x.1) (zip (callers w) fns)).
    rewrite <- (fst_zip (callers w) fns) at 2 by lia.
    now rewrite <- list_fmap_compose.
  - rewrite <- (fst_zip (callers w) fns) at 2 by lia.
    now rewrite <- list_fmap_compose.
Qed.

Lemma newStacktrace_keeps_all_witness :
  exists st, newStacktrace appWorld = Ok (st, appWorld) /\
    map function st = ["refresh"; "main"] /\ length st = length (callers appWorld) /\
    map file st = map c_file (callers appWorld) /\ map line st = map c_line (callers appWorld).
Proof.
  apply (newStacktrace_keeps_all appWorld ["refresh"; "main"]).
  - reflexivity.
  - reflexivity.
  - unfold StackTraceMaxDepth. simpl. lia.
Defined.

(** ** Printing the stack *)

Lemma lastChar_nonempty c s : exists d, lastChar (String c s) = Some d.
Proof.
  revert c. induction s as [|a s IH]; intros c; [now exists c|].
  destruct (IH a) as [d Hd]. exists d. exact Hd.
Qed.

Lemma lastChar_String c s :
  lastChar (String c s) = match lastChar s with Some d => Some d | None => Some c end.
Proof.
  destruct s as [|a s]; [reflexivity|].
  destruct (lastChar_nonempty a s) as [d Hd].
  change (lastChar (String a s) = match lastChar (String a s) with Some d => Some d | None => Some c end).
  now rewrite Hd.
Qed.

Lemma lastChar_None s : lastChar s = None -> s = EmptyString.
Proof.
  induction s as [|c s IH]; [reflexivity|]. rewrite lastChar_String.
  destruct (lastChar s); discriminate.
Qed.

Lemma lastChar_app a b c : lastChar b = Some c -> lastChar (a +:+ b) = Some c.
Proof.
  intros Hb. induction a as [|x a IH]; [exact Hb|].
  rewrite append_String, lastChar_String. now rewrite IH.
Qed.

Lemma substring_last s :
  substring (String.length s - 1) 1 s
  = match lastChar s with Some c => String c EmptyString | None => EmptyString end.
Proof.
  induction s as [|c s IH]; [reflexivity|].
  destruct s as [|c' s']; [reflexivity|].
  replace (String.length (String c (String c' s')) - 1)
    with (S (String.length (String c' s') - 1)) by (cbn [String.length]; lia).
  match goal with |- context [substring (S ?n) 1 (String c ?t)] =>
    change (substring (S n) 1 (String c t)) with (substring n 1 t) end.
  rewrite IH. reflexivity.
Qed.

Lemma HasSuffix_nl s c :
  lastChar s = Some c -> c <> newline -> strings_HasSuffix s nl = false.
Proof.
  intros Hl Hc. unfold strings_HasSuffix, nl.
  change (String.length (String (ascii_of_nat 10) EmptyString)) with 1.
  rewrite substring_last, Hl. apply andb_false_iff. right.
  apply bool_decide_eq_false. intros [= E]. apply Hc. exact E.
Qed.

Lemma uint_Nil_or d : d = Decimal.Nil \/ d <> Decimal.Nil.
Proof. destruct d; (now left) || (right; discriminate). Qed.

Lemma lastChar_uint_digits d :
  d <> Decimal.Nil -> exists c, lastChar (NilEmpty.string_of_uint d) = Some c /\ c <> newline.
Proof.
  induction d as [|d IH|d IH|d IH|d IH|d IH|d IH|d IH|d IH|d IH|d IH]; intros Hn;
    [congruence|..];
    cbn [NilEmpty.string_of_uint]; rewrite lastChar_String;
    (destruct (uint_Nil_or d) as [->|Hd];
     [eexists; split; [reflexivity|discriminate]
     |destruct (IH Hd) as (c & Hc & Hne); rewrite Hc; eauto]).
Qed.

Lemma lastChar_uint d :
  exists c, lastChar (NilZero.string_of_uint d) = Some c /\ c <> newline.
Proof.
  destruct d; try (apply lastChar_uint_digits; discriminate).
  eexists. split; [reflexivity|discriminate].
Qed.

Lemma lastChar_itoa z : exists c, lastChar (itoa z) = Some c /\ c <> newline.
Proof.
  unfold itoa. destruct (Z.to_int z) as [d|d]; cbn [NilZero.string_of_int].
  - apply lastChar_uint.
  - destruct (lastChar_uint d) as (c & Hc & Hne).
    exists c. split; [|exact Hne]. rewrite lastChar_String. now rewrite Hc.
Qed.

Lemma lastChar_frame_String f :
  exists c, lastChar (frame_String f) = Some c /\ c <> newline.
Proof.
  unfold frame_String. destruct (negb (bool_decide (function f = EmptyString))).
  - exists ")"%char. split; [|discriminate].
    apply lastChar_app. apply lastChar_app. reflexivity.
  - destruct (lastChar_itoa (line f)) as (c & Hc & Hne). exists c. split; [|exact Hne].
    now apply lastChar_app.
Qed.

Lemma lastChar_frameLine f : exists c, lastChar (frameLine f) = Some c /\ c <> newline.
Proof.
  destruct (lastChar_frame_String f) as (c & Hc & Hne). exists c. split; [|exact Hne].
  now apply lastChar_app.
Qed.

Lemma frame_String_nonempty f : frame_String f <> EmptyString.
Proof.
  destruct (lastChar_frame_String f) as (c & Hc & _). intros E. rewrite E in Hc. discriminate.
Qed.

Lemma strings_Join_cons x l sep :
  l <> [] -> strings_Join (x :: l) sep = x +:+ (sep +:+ strings_Join l sep).
Proof. destruct l; [congruence|reflexivity]. Qed.

Lemma lastChar_Join_lines f fs :
  exists c, lastChar (strings_Join (map frameLine (f :: fs)) nl) = Some c /\ c <> newline.
Proof.
  revert f. induction fs as [|g fs IH]; intros f.
  - apply lastChar_frameLine.
  - destruct (IH g) as (c & Hc & Hne). exists c. split; [|exact Hne].
    cbn [map]. rewrite strings_Join_cons by discriminate.
    apply lastChar_app, lastChar_app. exact Hc.
Qed.

Lemma StringUntilFrame_loop_lines st d : forall s,
  (s = EmptyString \/ exists c, lastChar s = Some c /\ c <> newline) ->
  StringUntilFrame_loop st d s = linesAfter s (map frameLine (printedFrames d st)).
Proof.
  induction st as [|f st IH]; intros s Hs; [reflexivity|].
  cbn [StringUntilFrame_loop printedFrames].
  destruct (bool_decide (file f = EmptyString)); [now apply IH|].
  cbv zeta. rewrite (bool_decide_eq_false_2 _ (frame_String_nonempty f)).
  destruct (frame_Equals f d); [reflexivity|].
  assert (Hsep : (if negb (bool_decide (s = EmptyString)) && negb (strings_HasSuffix s nl)
                  then s +:+ nl else s)
                 = if bool_decide (s = EmptyString) then EmptyString else s +:+ nl).
  { destruct Hs as [->|(c & Hc & Hne)]; [reflexivity|].
    rewrite (HasSuffix_nl s c Hc Hne).
    destruct (bool_decide (s = EmptyString)) eqn:E; [|reflexivity].
    apply bool_decide_eq_true in E. subst s. discriminate. }
  rewrite Hsep. rewrite IH.
  - cbn [map]. fold (frameLine f).
    destruct (printedFrames d st) as [|g gs] eqn:Eg.
    + cbn [map linesAfter strings_Join].
      destruct (bool_decide (s = EmptyString)) eqn:E; [reflexivity|].
      now rewrite append_assoc.
    + unfold linesAfter. cbn [map].
      rewrite (strings_Join_cons (frameLine f)) by discriminate.
      assert (Hne : bool_decide
                (((if bool_decide (s = EmptyString) then EmptyString else s +:+ nl)
                  +:+ frameLine f) = EmptyString) = false).
      { apply bool_decide_eq_false. intros E'.
        destruct (lastChar_frameLine f) as (c & Hc & _).
        apply (f_equal lastChar) in E'. rewrite (lastChar_app _ _ _ Hc) in E'. discriminate. }
      rewrite Hne.
      destruct (bool_decide (s = EmptyString)); [reflexivity|].
      now rewrite !append_assoc.
  - right. destruct (lastChar_frameLine f) as (c & Hc & Hne). exists c. split; [|exact Hne].
    now apply lastChar_app.
Qed.

Lemma StringUntilFrame_printed (st : list stackTraceFrame) (d : stackTraceFrame) :
  StringUntilFrame st d = strings_Join (map frameLine (printedFrames d st)) nl.
Proof.
  unfold StringUntilFrame. rewrite StringUntilFrame_loop_lines by (now left).
  unfold linesAfter. now destruct (map frameLine (printedFrames d st)).
Qed.

Lemma printedFrames_zeroFrame (st : list stackTraceFrame) :
  printedFrames zeroFrame st = filter (fun f => file f <> EmptyString) st.
Proof.
  induction st as [|f st IH]; [reflexivity|]. cbn [printedFrames].
  destruct (bool_decide (file f = EmptyString)) eqn:E.
  - apply bool_decide_eq_true in E.
    rewrite filter_cons_False by (intros Hne; exact (Hne E)). exact IH.
  - apply bool_decide_eq_false in E. rewrite filter_cons_True by exact E.
    assert (Hz : frame_Equals f zeroFrame = false).
    { unfold frame_Equals, zeroFrame. cbn [file].
      now rewrite (bool_decide_eq_false_2 _ E). }
    rewrite Hz. now rewrite IH.
Qed.

(** X18: [StringUntilFrame] prints one line per frame that has a file,
    up to the first such frame that equals [deepestFrame], the lines
    separated by a line feed with none at the end; with the zero frame as
    bound, as [String] calls it, every frame with a file is printed. *)
Theorem StringUntilFrame_lines (st : list stackTraceFrame) (deepestFrame : stackTraceFrame) :
  StringUntilFrame st deepestFrame
  = strings_Join (map frameLine (printedFrames deepestFrame st)) nl /\
  StringUntilFrame st zeroFrame
  = strings_Join (map frameLine (filter (fun f => file f <> EmptyString) st)) nl.
Proof.
  split; [apply StringUntilFrame_printed|].
  now rewrite StringUntilFrame_printed, printedFrames_zeroFrame.
Qed.

Lemma StackTrace_tap_count (l : list Error) : forall acc : list string * stackTraceFrame,
  length (foldl (fun acc e => Error.StackTrace_tap e acc) acc l).1
  = length acc.1 + length (filter (fun e : Error => 0 < length (stackTrace_ e)) l).
Proof.
  induction l as [|e l IH]; intros acc; [simpl; lia|].
  cbn [foldl]. rewrite IH. unfold Error.StackTrace_tap.
  destruct (stackTrace_ e) as [|f fs] eqn:E.
  - rewrite filter_cons_False by (rewrite E; simpl; lia). reflexivity.
  - rewrite filter_cons_True by (rewrite E; simpl; lia). simpl. lia.
Qed.

(** X19: [StackTrace] returns the empty string exactly when no node of
    the chain has captured a frame. *)
Theorem StackTrace_empty_iff (p : PtrError) :
  Error.StackTrace p = EmptyString <-> Forall (fun e : Error => stackTrace_ e = []) (chain p).
Proof.
  unfold Error.StackTrace. rewrite recursive_foldl.
  pose proof (StackTrace_tap_count (chain p) ([], zeroFrame)) as Hc. cbn [fst length] in Hc.
  match goal with |- context [?n =? 0] => destruct (n =? 0) eqn:Hz end.
  - apply Nat.eqb_eq in Hz. split; [intros _|reflexivity].
    pose proof (eq_trans (eq_sym Hc) Hz) as Hf. simpl in Hf.
    apply Forall_forall. intros e He.
    destruct (stackTrace_ e) as [|f fs] eqn:E; [reflexivity|]. exfalso.
    assert (Hin : e ∈ filter (fun e : Error => 0 < length (stackTrace_ e)) (chain p)).
    { apply list_elem_of_filter. split; [rewrite E; simpl; lia|exact He]. }
    destruct (filter (fun e : Error => 0 < length (stackTrace_ e)) (chain p)); [inversion Hin|].
    simpl in Hf. lia.
  - apply Nat.eqb_neq in Hz. split; [discriminate|]. intros Hall. exfalso. apply Hz.
    refine (eq_trans Hc _). simpl.
    assert (E : filter (fun e : Error => 0 < length (stackTrace_ e)) (chain p) = []).
    { clear -Hall. induction Hall as [|e l He _ IH]; [reflexivity|].
      rewrite filter_cons_False by (rewrite He; simpl; lia). exact IH. }
    now rewrite E.
Qed.

(** X20: [StackTrace] on a node that is the innermost of its chain and
    has captured frames: the header is the message of the node, or the
    text of its cause when it has no message, or [Error] when that is
    empty too, followed by one line per frame that has a file. *)
Theorem StackTrace_single_node (a : nat) (e : Error) (f : stackTraceFrame) (fs : list stackTraceFrame) :
  errors_As (err e) = None ->
  stackTrace_ e = f :: fs ->
  Error.StackTrace (Some (a, e))
  = "Error: " +:+
    (match message e with
     | Some m => m
     | None => if isNil (err e) then "Error"
               else if bool_decide (error_Error (err e) = EmptyString) then "Error"
               else error_Error (err e)
     end +:+ nl) +:+
    strings_Join (map frameLine (filter (fun g => file g <> EmptyString) (f :: fs))) nl.
Proof.
  intros HAs Hst. unfold Error.StackTrace. rewrite recursive_step, HAs.
  unfold Error.StackTrace_tap. rewrite Hst. cbn [fst snd length Nat.eqb strings_Join].
  rewrite <- Hst. rewrite StringUntilFrame_printed, printedFrames_zeroFrame.
  do 2 f_equal. f_equal.
  destruct (message e); [reflexivity|]. unfold coalesceOrEmpty.
  destruct (isNil (err e)); cbn [negb lo_Coalesce].
  - reflexivity.
  - destruct (decide (error_Error (err e) = EmptyString)) as [E|E].
    + rewrite E. reflexivity.
    + rewrite (bool_decide_eq_false_2 _ E). destruct (decide (error_Error (err e) = EmptyString)); [contradiction|reflexivity].
Qed.

Lemma StackTrace_single_node_witness :
  Error.StackTrace (Some (0, framedNode))
  = "Error: " +:+ ("boom" +:+ nl) +:+ "  --- at app/service.go:42 refresh()".
Proof.
  exact (StackTrace_single_node 0 framedNode _ _ eq_refl eq_refl).
Defined.

(** ** Shortening function names *)

Lemma LastIndex_absent s c : hasByte c s = false -> strings_LastIndex s c = (-1)%Z.
Proof.
  induction s as [|x s IH]; [reflexivity|]. cbn [hasByte strings_LastIndex].
  intros H. apply orb_false_iff in H. destruct H as [Hx Hs]. rewrite (IH Hs), Hx. reflexivity.
Qed.

Lemma Index_absent s c : hasByte c s = false -> strings_Index s c = (-1)%Z.
Proof.
  induction s as [|x s IH]; [reflexivity|]. cbn [hasByte strings_Index].
  intros H. apply orb_false_iff in H. destruct H as [Hx Hs]. rewrite (IH Hs), Hx. reflexivity.
Qed.

Lemma LastIndex_nonneg_bound s c : (-1 <= strings_LastIndex s c)%Z.
Proof.
  induction s as [|x s IH]; cbn [strings_LastIndex]; [lia|].
  destruct (0 <=? strings_LastIndex s c)%Z eqn:E; [lia|]. destruct (bool_decide (x = c)); lia.
Qed.

Lemma LastIndex_app path c rest :
  hasByte c rest = false ->
  strings_LastIndex (path +:+ String c rest) c = Z.of_nat (String.length path).
Proof.
  intros Hr. induction path as [|x path IH].
  - change (EmptyString +:+ String c rest) with (String c rest).
    cbn [strings_LastIndex]. rewrite (LastIndex_absent rest c Hr). simpl.
    now rewrite bool_decide_eq_true_2.
  - change (String x path +:+ String c rest) with (String x (path +:+ String c rest)).
    cbn [strings_LastIndex String.length]. rewrite IH.
    destruct (0 <=? Z.of_nat (String.length path))%Z eqn:E; [lia|].
    apply Z.leb_gt in E. lia.
Qed.

Lemma Index_app pkg c name :
  hasByte c pkg = false ->
  strings_Index (pkg +:+ String c name) c = Z.of_nat (String.length pkg).
Proof.
  intros Hp. induction pkg as [|x pkg IH].
  - change (EmptyString +:+ String c name) with (String c name).
    cbn [strings_Index]. now rewrite bool_decide_eq_true_2.
  - change (String x pkg +:+ String c name) with (String x (pkg +:+ String c name)).
    cbn [hasByte] in Hp. apply orb_false_iff in Hp. destruct Hp as [Hx Hp].
    cbn [strings_Index String.length]. rewrite Hx, (IH Hp).
    destruct (Z.of_nat (String.length pkg) <? 0)%Z eqn:E; [apply Z.ltb_lt in E; lia|lia].
Qed.

Lemma sliceFrom_app path c rest :
  sliceFrom (S (String.length path)) (path +:+ String c rest) = rest.
Proof.
  induction path as [|x path IH]; [reflexivity|].
  change (String x path +:+ String c rest) with (String x (path +:+ String c rest)).
  cbn [String.length sliceFrom]. exact IH.
Qed.

Lemma hasByte_app c a b : hasByte c (a +:+ b) = hasByte c a || hasByte c b.
Proof.
  induction a as [|x a IH]; [reflexivity|].
  change (String x a +:+ b) with (String x (a +:+ b)). cbn [hasByte].
  now rewrite IH, orb_assoc.
Qed.

(** X21: [shortenFuncName] on a name made of a path, a package and a
    rest, the package holding neither slash nor dot and the rest no
    slash: path and package are dropped, with or without a path, and of
    the rest the first opening parenthesis, the first star and the first
    closing parenthesis are removed. *)
Theorem shortenFuncName_strips (path pkg name : string) :
  hasByte "/" pkg = false -> hasByte "." pkg = false -> hasByte "/" name = false ->
  shortenFuncName (path +:+ String "/" (pkg +:+ String "." name))
  = removeFirst ")" (removeFirst "*" (removeFirst "(" name)) /\
  shortenFuncName (pkg +:+ String "." name)
  = removeFirst ")" (removeFirst "*" (removeFirst "(" name)).
Proof.
  intros Hp1 Hp2 Hn.
  assert (Hrest : hasByte "/" (pkg +:+ String "." name) = false).
  { rewrite hasByte_app, Hp1. cbn [hasByte orb]. rewrite Hn.
    now rewrite bool_decide_eq_false_2 by discriminate. }
  assert (H2 : shortenFuncName (pkg +:+ String "." name)
               = removeFirst ")" (removeFirst "*" (removeFirst "(" name))).
  { unfold shortenFuncName. cbv zeta. rewrite (LastIndex_absent _ _ Hrest).
    change (Z.to_nat (-1 + 1)) with 0. cbn [sliceFrom].
    rewrite (Index_app pkg "." name Hp2).
    replace (Z.to_nat (Z.of_nat (String.length pkg) + 1)) with (S (String.length pkg)) by lia.
    now rewrite sliceFrom_app. }
  split; [|exact H2].
  rewrite <- H2. unfold shortenFuncName at 1. cbv zeta.
  rewrite (LastIndex_app path "/" _ Hrest).
  replace (Z.to_nat (Z.of_nat (String.length path) + 1)) with (S (String.length path)) by lia.
  rewrite sliceFrom_app. unfold shortenFuncName. cbv zeta.
  rewrite (LastIndex_absent _ _ Hrest). reflexivity.
Qed.

Lemma shortenFuncName_strips_witness :
  shortenFuncName ("github.com/palantir/shield"
                   +:+ String "/" ("package" +:+ String "." ("(" +:+ "*PtrReceiver).MethodName")))
  = "PtrReceiver.MethodName".
Proof.
  exact (proj1 (shortenFuncName_strips "github.com/palantir/shield" "package"
                  ("(" +:+ "*PtrReceiver).MethodName") eq_refl eq_refl eq_refl)).
Defined.

Example shortenFuncName_documented :
  shortenFuncName "github.com/palantir/shield/package.FuncName" = "FuncName" /\
  shortenFuncName "github.com/palantir/shield/package.Receiver.MethodName" = "Receiver.MethodName" /\
  shortenFuncName ("github.com/palantir/shield/package.(" +:+ "*PtrReceiver).MethodName")
  = "PtrReceiver.MethodName".
Proof. repeat split. Qed.
